(** * vibe-translator: the in-memory repository and the generative-text
      response normalisation, embedded and verified

    Sources embedded here:
    - [server/storage.ts]            : class [MemStorage]
    - [server/services/gemini.ts]    : [generateText], [gemini.generateInsights],
                                       [gemini.translateBetweenFrames]
    - [server/services/community-archive.ts] : [getRecentPopularTweets]
    - [server/utils.ts]              : [log]

    Conventions of the embedding.
    - A JavaScript object is a finite map from property names to values
      ([gmap string Val]); the object spread [{...a, ...b}] is the union of
      the two maps in which [b] wins.
    - A JavaScript [Map] keeps its entries in insertion order, and the code
      iterates over [values()]: it is an association list in that order.
    - A [Promise] that resolves is [Ok], one that rejects (a [throw] inside an
      [async] function) is [Throw].
    - The numbers stored here are ids and counters; they are mathematical
      integers ([Z]): binary64 rounding, which would only show after 2^53
      insertions, is not modelled.
    - A string is its sequence of characters; nothing embedded here depends
      on how characters are encoded.
    - The clock, the process environment and the remote services are
      arguments of the operations that read them. *)

From Stdlib Require Import ZArith String Ascii List DecimalString QArith.
From stdpp Require Import base option list gmap strings.

Set Warnings "-register-all".

Local Open Scope Z_scope.
Local Open Scope string_scope.

(** * The embedding *)

(** ** JavaScript values and objects *)

Inductive Val : Type :=
| VUndefined
| VNull
| VBool (b : bool)
| VNum (n : Z)
| VStr (s : string)
| VDate (t : Z)
| VArr (l : list Val).

(** An object: own enumerable properties. *)
Abbreviation Obj := (gmap string Val).

(** [o.k]: reading an absent property yields [undefined]. *)
Definition prop (o : Obj) (k : string) : Val := default VUndefined (o !! k).

(** [{ ...base, ...over }] *)
Definition spread (base over : Obj) : Obj := over ∪ base.

(** [v === s] for a string [s], and [v === n] for a number [n]: values of
    another type are never strictly equal to a primitive. *)
Definition strict_equals_string (v : Val) (s : string) : bool :=
  match v with VStr s' => String.eqb s' s | _ => false end.

Definition strict_equals_number (v : Val) (n : Z) : bool :=
  match v with VNum n' => Z.eqb n' n | _ => false end.

(** [`${n}`] for an integer [n]. *)
Definition Number_toString (n : Z) : string :=
  NilZero.string_of_int (Z.to_int n).

(** ** Exceptions *)

Record JSError : Type := mkError { err_name : string; err_message : string }.

(** [new Error(msg)] *)
Definition Error (msg : string) : JSError := mkError "Error" msg.

Inductive Result (A : Type) : Type :=
| Ok (a : A)
| Throw (e : JSError).
Arguments Ok {A} a.
Arguments Throw {A} e.

(** ** [Map<number, V>] in insertion order *)

Definition JSMap (V : Type) : Type := list (Z * V).

(** [m.get(k)] *)
Fixpoint map_get {V : Type} (m : JSMap V) (k : Z) : option V :=
  match m with
  | [] => None
  | (k', v) :: r => if Z.eqb k' k then Some v else map_get r k
  end.

(** [m.set(k, v)]: an existing key keeps its position, a new key goes last. *)
Fixpoint map_set {V : Type} (m : JSMap V) (k : Z) (v : V) : JSMap V :=
  match m with
  | [] => [(k, v)]
  | (k', v') :: r =>
      if Z.eqb k' k then (k, v) :: r else (k', v') :: map_set r k v
  end.

(** [Array.from(m.values())] *)
Definition map_values {V : Type} (m : JSMap V) : list V := map snd m.

Definition map_keys {V : Type} (m : JSMap V) : list Z := map fst m.

(** ** [class MemStorage] (storage.ts) *)

Record CurrentIds : Type := mkIds { user : Z; insight : Z; comparison : Z }.

Record MemStorage : Type := mkStorage {
  users : JSMap Obj;
  insights : JSMap Obj;
  comparisons : JSMap Obj;
  currentIds : CurrentIds
}.

(** [constructor()] *)
Definition MemStorage_new : MemStorage :=
  mkStorage [] [] [] (mkIds 1 1 1).

(** [getUser(id)] *)
Definition getUser (this : MemStorage) (id : Z) : option Obj :=
  map_get (users this) id.

(** [getUserByTwitterHandle(handle)] *)
Definition getUserByTwitterHandle (this : MemStorage) (handle : string)
  : option Obj :=
  find (fun u => strict_equals_string (prop u "twitterHandle") handle)
       (map_values (users this)).

(** [createUser(insertUser)]: the returned record and the next state. *)
Definition createUser (this : MemStorage) (insertUser : Obj)
  : Obj * MemStorage :=
  let ids := currentIds this in
  let id := user ids in
  let ids' := mkIds (id + 1) (insight ids) (comparison ids) in
  let u := spread {[ "id" := VNum id ]} insertUser in
  (u, mkStorage (map_set (users this) id u) (insights this)
                (comparisons this) ids').

(** [getInsight(userId)] *)
Definition getInsight (this : MemStorage) (userId : Z) : option Obj :=
  find (fun i => strict_equals_number (prop i "userId") userId)
       (map_values (insights this)).

(** [createInsight(insertInsight)] *)
Definition createInsight (this : MemStorage) (insertInsight : Obj)
  : Obj * MemStorage :=
  let ids := currentIds this in
  let id := insight ids in
  let ids' := mkIds (user ids) (id + 1) (comparison ids) in
  let i := spread {[ "id" := VNum id ]} insertInsight in
  (i, mkStorage (users this) (map_set (insights this) id i)
                (comparisons this) ids').

(** [updateInsight(id, updateData)] *)
Definition updateInsight (this : MemStorage) (id : Z) (updateData : Obj)
  : Result Obj * MemStorage :=
  match map_get (insights this) id with
  | None => (Throw (Error ("Insight not found: " ++ Number_toString id)), this)
  | Some existing =>
      let updated := spread existing updateData in
      (Ok updated,
       mkStorage (users this) (map_set (insights this) id updated)
                 (comparisons this) (currentIds this))
  end.

(** [getComparison(id)] *)
Definition getComparison (this : MemStorage) (id : Z) : option Obj :=
  map_get (comparisons this) id.

(** [createComparison(insertComparison)]; [now] is the value of [new Date()]. *)
Definition createComparison (this : MemStorage) (now : Z)
  (insertComparison : Obj) : Obj * MemStorage :=
  let ids := currentIds this in
  let id := comparison ids in
  let ids' := mkIds (user ids) (insight ids) (id + 1) in
  let c := <[ "createdAt" := VDate now ]>
             (spread {[ "id" := VNum id ]} insertComparison) in
  (c, mkStorage (users this) (insights this)
                (map_set (comparisons this) id c) ids').

(** [getComparisonsByUser(userId)] *)
Definition getComparisonsByUser (this : MemStorage) (userId : Z) : list Obj :=
  List.filter
    (fun c => strict_equals_number (prop c "userAId") userId
              || strict_equals_number (prop c "userBId") userId)
    (map_values (comparisons this)).

(** A client of the repository: the calls that change it, and the state a
    sequence of calls leads to from a given one. *)
Inductive Call : Type :=
| CreateUser (insertUser : Obj)
| CreateInsight (insertInsight : Obj)
| UpdateInsight (id : Z) (updateData : Obj)
| CreateComparison (now : Z) (insertComparison : Obj).

Definition perform (this : MemStorage) (c : Call) : MemStorage :=
  match c with
  | CreateUser p => snd (createUser this p)
  | CreateInsight p => snd (createInsight this p)
  | UpdateInsight id p => snd (updateInsight this id p)
  | CreateComparison now p => snd (createComparison this now p)
  end.

Definition run (this : MemStorage) (cs : list Call) : MemStorage :=
  fold_left perform cs this.

(** The keys [1, 2, ..., next - 1], in this order. *)
Definition issued (next : Z) : list Z :=
  map Z.of_nat (seq 1 (Z.to_nat (next - 1))).

(** The counters of a repository agree with its maps: the keys of each map
    are exactly the ids issued so far, in the order of issue. *)
Definition counters_ok (this : MemStorage) : Prop :=
  (1 <= user (currentIds this)
   /\ map_keys (users this) = issued (user (currentIds this)))
  /\ (1 <= insight (currentIds this)
      /\ map_keys (insights this) = issued (insight (currentIds this)))
  /\ (1 <= comparison (currentIds this)
      /\ map_keys (comparisons this) = issued (comparison (currentIds this))).

(** The call passes no [id] property. *)
Definition carries_no_id (c : Call) : Prop :=
  match c with
  | CreateUser p => p !! "id" = None
  | CreateInsight p => p !! "id" = None
  | UpdateInsight _ p => p !! "id" = None
  | CreateComparison _ p => p !! "id" = None
  end.

(** Every record of the map carries, as its [id], the key it is stored
    under. *)
Definition ids_are_keys (m : JSMap Obj) : Prop :=
  Forall (fun kv => prop (snd kv) "id" = VNum (fst kv)) m.

(** ** Values produced by [JSON.parse] *)

Inductive JSON : Type :=
| JNull
| JBool (b : bool)
| JNumber (q : Q)
| JString (s : string)
| JArray (l : list JSON)
| JObject (members : list (string * JSON)).

(** The result of reading a property: [undefined] or a value. *)
Inductive JSVal : Type :=
| Undefined
| Defined (j : JSON).

(** Last binding of [k] in the members of an object literal: on duplicate
    names [JSON.parse] keeps the last one. *)
Fixpoint last_member (ms : list (string * JSON)) (k : string) : JSVal :=
  match ms with
  | [] => Undefined
  | (k', v) :: r =>
      match last_member r k with
      | Defined v' => Defined v'
      | Undefined => if String.eqb k' k then Defined v else Undefined
      end
  end.

Definition TypeError (msg : string) : JSError := mkError "TypeError" msg.
Definition SyntaxError (msg : string) : JSError := mkError "SyntaxError" msg.

(** [j.k] for the property names the code reads ([description], [topics],
    [sourceFrame], [targetFrame], [translation]): none of them is defined on
    a primitive wrapper or on [Array.prototype], so only an object can have
    it, and reading it off [null] throws. *)
Definition member (j : JSON) (k : string) : Result JSVal :=
  match j with
  | JNull => Throw (TypeError ("Cannot read properties of null (reading '"
                               ++ k ++ "')"))
  | JObject ms => Ok (last_member ms k)
  | _ => Ok Undefined
  end.

(** [ToBoolean] *)
Definition truthy (v : JSVal) : bool :=
  match v with
  | Undefined => false
  | Defined JNull => false
  | Defined (JBool b) => b
  | Defined (JNumber q) => negb (Qeq_bool q 0)
  | Defined (JString s) => negb (String.eqb s EmptyString)
  | Defined (JArray _) => true
  | Defined (JObject _) => true
  end.

(** [v || d] *)
Definition or_else (v : JSVal) (d : JSON) : JSON :=
  match v with
  | Defined j => if truthy v then j else d
  | Undefined => d
  end.

(** ** The regular expression [/\{[\s\S]*\}/]

    [text.match(/\{[\s\S]*\}/)]: the leftmost opening brace that is followed
    by a closing brace, up to the last closing brace of the text (the star is
    greedy and [[\s\S]] matches every character). *)

Definition open_brace : ascii := "{"%char.
Definition close_brace : ascii := "}"%char.

(** The longest prefix of [s] that ends with a closing brace. *)
Fixpoint upto_last_close (s : string) : option string :=
  match s with
  | EmptyString => None
  | String c r =>
      match upto_last_close r with
      | Some u => Some (String c u)
      | None => if Ascii.eqb c close_brace then Some (String c EmptyString)
                else None
      end
  end.

Fixpoint match_json (s : string) : option string :=
  match s with
  | EmptyString => None
  | String c r =>
      if Ascii.eqb c open_brace then
        match upto_last_close r with
        | Some u => Some (String c u)
        | None => None
        end
      else match_json r
  end.

(** [c] occurs in [s]. *)
Fixpoint has_char (c : ascii) (s : string) : bool :=
  match s with
  | EmptyString => false
  | String a r => Ascii.eqb a c || has_char c r
  end.

(** ** Effects: console output and network requests *)

(** The body of a [generateContent] request, before [JSON.stringify]. *)
Record GenerateContentBody : Type := mkBody {
  contents_text : string;
  generationConfig : list (string * Q)
}.

Record Request : Type := mkRequest {
  url : string;
  method : string;
  headers : list (string * string);
  body : option GenerateContentBody
}.

(** A [fetch] response over payloads of type [D] (the value of
    [response.json()], of TypeScript type [any]). *)
Record Response (D : Type) : Type := mkResponse {
  ok : bool;
  status : Z;
  statusText : string;
  response_text : Result string;
  response_json : Result D
}.
Arguments mkResponse {D}.
Arguments ok {D}.
Arguments status {D}.
Arguments statusText {D}.
Arguments response_text {D}.
Arguments response_json {D}.

Record Effects : Type := mkEffects {
  console : list string;
  requests : list Request
}.

Definition no_effects : Effects := mkEffects [] [].

(** An [async] computation: it runs on the effects so far and resolves
    ([Ok]) or rejects ([Throw]). *)
Definition Comp (A : Type) : Type := Effects -> Result A * Effects.

Definition ret {A : Type} (a : A) : Comp A := fun fx => (Ok a, fx).

Definition throw {A : Type} (e : JSError) : Comp A := fun fx => (Throw e, fx).

Definition bind {A B : Type} (c : Comp A) (k : A -> Comp B) : Comp B :=
  fun fx =>
    match c fx with
    | (Ok a, fx') => k a fx'
    | (Throw e, fx') => (Throw e, fx')
    end.

(** [try { c } catch (error) { h error }] *)
Definition try_catch {A : Type} (c : Comp A) (h : JSError -> Comp A) : Comp A :=
  fun fx =>
    match c fx with
    | (Ok a, fx') => (Ok a, fx')
    | (Throw e, fx') => h e fx'
    end.

(** [await p] for a promise whose outcome is [r]. *)
Definition await {A : Type} (r : Result A) : Comp A := fun fx => (r, fx).

Declare Scope comp_scope.
Delimit Scope comp_scope with comp.
Notation "x <- c ;; k" := (bind c (fun x => k))
  (at level 100, c at next level, right associativity) : comp_scope.
Notation "c ;; k" := (bind c (fun _ => k))
  (at level 100, right associativity) : comp_scope.
Local Open Scope comp_scope.

(** [log(message, source)] (utils.ts): one console line; the wall-clock
    prefix of the line is left out. *)
Definition console_line (message : string) (source : option string) : string :=
  let sourcePrefix :=
    match source with
    | Some s => if String.eqb s EmptyString then EmptyString
                else "[" ++ s ++ "] "
    | None => EmptyString
    end in
  sourcePrefix ++ message.

Definition log (message : string) (source : option string) : Comp unit :=
  fun fx =>
    (Ok tt, mkEffects (console fx ++ [console_line message source])
                      (requests fx)).

(** [`${error}`] for an [Error] object. *)
Definition Error_toString (e : JSError) : string :=
  if String.eqb (err_name e) EmptyString then err_message e
  else if String.eqb (err_message e) EmptyString then err_name e
  else err_name e ++ ": " ++ err_message e.

(** ** The world outside the process *)

(** [GeminiResponseSchema] (gemini.ts): the shape [generateText] validates. *)
Record Part : Type := mkPart { text : string }.
Record Content : Type := mkContent { parts : list Part }.
Record Candidate : Type := mkCandidate { content : Content }.
Record GeminiResponse : Type := mkGeminiResponse { candidates : list Candidate }.

(** [TweetSchema] (community-archive.ts). A field that is [.nullable()
    .optional()] is absent ([None]), [null] ([Some None]) or present. *)
Record Tweet : Type := mkTweet {
  tweet_id : string;
  full_text : string;
  created_at : string;
  favorite_count : Q;
  account_id : string;
  retweet_count : option (option Q);
  reply_to_tweet_id : option (option string);
  reply_to_user_id : option (option string);
  reply_to_username : option (option string);
  fts : option (option string);
  archive_upload_id : option Q;
  updated_at : option string
}.

(** What [generateInsights] observes of the untyped [data] when it evaluates
    [data.candidates && data.candidates.length > 0] and then
    [data.candidates[0].content.parts[0].text]. *)
Inductive TextRead : Type :=
| GuardFalsy
| ReadThrows (e : JSError)
| TextContent (v : JSVal).

(** The environment variables, the network, and the library functions that
    decode what the network returns. [D] is the type of response payloads. *)
Record World (D : Type) : Type := mkWorld {
  GEMINI_API_KEY : option string;
  SUPABASE_KEY : option string;
  COMMUNITY_ARCHIVE_API_URL : option string;
  fetch_outcome : Request -> Result (Response D);
  JSON_parse : string -> Result JSON;
  GeminiResponseSchema_parse : D -> Result GeminiResponse;
  TweetArraySchema_parse : D -> Result (list Tweet);
  read_text : D -> TextRead
}.
Arguments GEMINI_API_KEY {D}.
Arguments SUPABASE_KEY {D}.
Arguments COMMUNITY_ARCHIVE_API_URL {D}.
Arguments fetch_outcome {D}.
Arguments JSON_parse {D}.
Arguments GeminiResponseSchema_parse {D}.
Arguments TweetArraySchema_parse {D}.
Arguments read_text {D}.

(** [await fetch(url, init)]: the request goes out, the world answers. *)
Definition fetch {D : Type} (w : World D) (rq : Request) : Comp (Response D) :=
  fun fx =>
    (fetch_outcome w rq, mkEffects (console fx) (requests fx ++ [rq])).

(** [!v] for an environment variable: unset or empty. *)
Definition unset (v : option string) : bool :=
  match v with
  | None => true
  | Some s => String.eqb s EmptyString
  end.

(** [v || ''] *)
Definition or_empty (v : option string) : string := default EmptyString v.

Definition nl : string := String "010"%char EmptyString.
Definition dq : string := String "034"%char EmptyString.

(** ** gemini.ts *)

Definition GEMINI_API_URL : string :=
  "https://generativelanguage.googleapis.com/v1beta".
Definition GEMINI_MODEL : string := "models/gemini-1.5-pro".

Record GeminiRequestOptions : Type := mkOptions {
  maxTokens : option Q;
  temperature : option Q;
  topP : option Q;
  topK : option Q
}.

(** [o || d] for an optional number. *)
Definition or_number (o : option Q) (d : Q) : Q :=
  match o with
  | Some q => if Qeq_bool q 0 then d else q
  | None => d
  end.

Definition gemini_source : option string := Some "gemini".

(** The request [generateText] sends. *)
Definition text_request (apiKey : option string) (prompt : string)
  (options : GeminiRequestOptions) : Request :=
  mkRequest
    (GEMINI_API_URL ++ "/" ++ GEMINI_MODEL ++ ":generateContent?key="
     ++ or_empty apiKey)
    "POST"
    [("Content-Type", "application/json")]
    (Some (mkBody prompt
       [("maxOutputTokens", or_number (maxTokens options) 1024);
        ("temperature", or_number (temperature options) (7 # 10));
        ("topP", or_number (topP options) (95 # 100));
        ("topK", or_number (topK options) 40)])).

(** [generateText(prompt, options)] *)
Definition generateText {D : Type} (w : World D) (prompt : string)
  (options : GeminiRequestOptions) : Comp string :=
  if unset (GEMINI_API_KEY w) then
    throw (Error "GEMINI_API_KEY environment variable is not set")
  else
    try_catch
      (response <- fetch w (text_request (GEMINI_API_KEY w) prompt options) ;;
       (if negb (ok response) then
          errorText <- await (response_text response) ;;
          log ("Gemini API Error: " ++ Number_toString (status response)
               ++ " - " ++ errorText) gemini_source ;;
          throw (Error ("Gemini API error: "
                        ++ Number_toString (status response)))
        else ret tt) ;;
       data <- await (response_json response) ;;
       parsed <- await (GeminiResponseSchema_parse w data) ;;
       match candidates parsed with
       | candidate :: _ =>
           match parts (content candidate) with
           | part :: _ => ret (text part)
           | [] => throw (Error "No content in the response")
           end
       | [] => throw (Error "No content in the response")
       end)
      (fun error =>
         log ("Error generating text with Gemini: " ++ Error_toString error)
             gemini_source ;;
         throw error).

(** The value [generateInsights] resolves to. TypeScript declares
    [description: string] and [topics: string[]]; at run time they are
    whatever the parsed object holds. *)
Record Insights : Type := mkInsights {
  description : JSON;
  topics : list JSON
}.

(** The three hard-coded fallbacks of [generateInsights], in source order. *)
Definition fallback_no_json : Insights :=
  mkInsights
    (JString "This user appears to be interested in technology and social media.")
    [JString "Technology"; JString "Social Media"].

Definition fallback_parse_error : Insights :=
  mkInsights
    (JString "Error parsing AI response. The user appears to be active on social media.")
    [JString "Social Media"].

Definition fallback_unavailable : Insights :=
  mkInsights
    (JString "Unable to analyze the Twitter profile at this time.")
    [JString "Unknown"].

Definition insights_prompt (tweetHistory : string) : string :=
  nl ++ "    Analyze this Twitter history and provide insights in JSON format:"
  ++ nl ++ "    {"
  ++ nl ++ "      " ++ dq ++ "description" ++ dq ++ ": " ++ dq
  ++ "A comprehensive description of the person" ++ dq ++ ","
  ++ nl ++ "      " ++ dq ++ "topics" ++ dq ++ ": [" ++ dq
  ++ "important topic 1" ++ dq ++ ", " ++ dq ++ "important topic 2" ++ dq ++ "]"
  ++ nl ++ "    }"
  ++ nl
  ++ nl ++ "    Tweet history:"
  ++ nl ++ "    " ++ tweetHistory.

(** The request [generateInsights] sends. *)
Definition insights_request (apiKey : option string) (promptText : string)
  : Request :=
  mkRequest
    (GEMINI_API_URL ++ "/" ++ GEMINI_MODEL ++ ":generateContent?key="
     ++ or_empty apiKey)
    "POST"
    [("Content-Type", "application/json")]
    (Some (mkBody promptText
       [("temperature", 7 # 10); ("maxOutputTokens", 1000 # 1)])).

(** The inner [try] block of [generateInsights] (lines 159-181). *)
Definition parse_insights {D : Type} (w : World D) (data : D) : Comp Insights :=
  match read_text w data with
  | ReadThrows e => throw e
  | GuardFalsy => ret fallback_no_json
  | TextContent (Defined (JString textContent)) =>
      log ("Raw Gemini response: " ++ substring 0 100 textContent ++ "...")
          gemini_source ;;
      match match_json textContent with
      | Some jsonStr =>
          parsed <- await (JSON_parse w jsonStr) ;;
          d <- await (member parsed "description") ;;
          t <- await (member parsed "topics") ;;
          ret (mkInsights
                 (or_else d (JString "AI couldn't generate a description"))
                 (match t with
                  | Defined (JArray l) => l
                  | _ => []
                  end))
      | None => ret fallback_no_json
      end
  | TextContent Undefined =>
      throw (TypeError "Cannot read properties of undefined (reading 'substring')")
  | TextContent (Defined JNull) =>
      throw (TypeError "Cannot read properties of null (reading 'substring')")
  | TextContent (Defined _) =>
      throw (TypeError "textContent.substring is not a function")
  end.

(** [gemini.generateInsights(tweetHistory)] *)
Definition generateInsights {D : Type} (w : World D) (tweetHistory : string)
  : Comp Insights :=
  let apiKey := GEMINI_API_KEY w in
  if unset apiKey then
    throw (Error "GEMINI_API_KEY environment variable is not set")
  else
    log "Generating insights from tweet history" gemini_source ;;
    let promptText := insights_prompt tweetHistory in
    log ("Making request to " ++ GEMINI_API_URL ++ "/" ++ GEMINI_MODEL
         ++ ":generateContent") gemini_source ;;
    try_catch
      (response <- fetch w (insights_request apiKey promptText) ;;
       (if negb (ok response) then
          errorText <- await (response_text response) ;;
          log ("Gemini API request failed with status "
               ++ Number_toString (status response) ++ ": " ++ errorText)
              gemini_source ;;
          throw (Error ("Gemini API request failed: "
                        ++ Number_toString (status response) ++ " " ++ errorText))
        else ret tt) ;;
       data <- await (response_json response) ;;
       log "Successfully received response from Gemini API" gemini_source ;;
       try_catch
         (parse_insights w data)
         (fun parseError =>
            log ("Error parsing Gemini response: " ++ Error_toString parseError)
                gemini_source ;;
            ret fallback_parse_error))
      (fun error =>
         log ("Error in Gemini API call: " ++ Error_toString error)
             gemini_source ;;
         ret fallback_unavailable).

(** The value [translateBetweenFrames] resolves to. *)
Record Translation : Type := mkTranslation {
  sourceFrame : JSVal;
  targetFrame : JSVal;
  translation : JSVal
}.

Definition translation_prompt (sourceText targetHandle : string) : string :=
  "Analyze the following text and translate it into a different conceptual frame."
  ++ nl
  ++ nl ++ "Source text:"
  ++ nl ++ sourceText
  ++ nl
  ++ nl ++ "First, detect and name the conceptual frame/paradigm of this text (e.g., "
  ++ dq ++ "woo-woo" ++ dq ++ ", " ++ dq ++ "STEM" ++ dq ++ ", " ++ dq
  ++ "academic" ++ dq ++ ", " ++ dq ++ "practical" ++ dq ++ ", etc.)."
  ++ nl ++ "Then, translate this text to match @" ++ targetHandle
  ++ "'s typical communication style and conceptual frame."
  ++ nl ++ "Maintain the core meaning but express it in a way that would resonate with "
  ++ targetHandle ++ "'s perspective."
  ++ nl
  ++ nl ++ "Output your response in this exact JSON format:"
  ++ nl ++ "{"
  ++ nl ++ "  " ++ dq ++ "sourceFrame" ++ dq ++ ": " ++ dq
  ++ "name of detected frame" ++ dq ++ ","
  ++ nl ++ "  " ++ dq ++ "targetFrame" ++ dq ++ ": " ++ dq
  ++ "name of target frame" ++ dq ++ ","
  ++ nl ++ "  " ++ dq ++ "translation" ++ dq ++ ": " ++ dq
  ++ "translated text" ++ dq
  ++ nl ++ "}".

(** [{ temperature: 0.7, maxTokens: 1024 }] *)
Definition translation_options : GeminiRequestOptions :=
  mkOptions (Some (1024 # 1)) (Some (7 # 10)) None None.

(** [gemini.translateBetweenFrames(sourceText, targetHandle)] *)
Definition translateBetweenFrames {D : Type} (w : World D)
  (sourceText targetHandle : string) : Comp Translation :=
  let prompt := translation_prompt sourceText targetHandle in
  response <- generateText w prompt translation_options ;;
  try_catch
    (match match_json response with
     | Some jsonMatch =>
         result <- await (JSON_parse w jsonMatch) ;;
         sf <- await (member result "sourceFrame") ;;
         tf <- await (member result "targetFrame") ;;
         tr <- await (member result "translation") ;;
         ret (mkTranslation sf tf tr)
     | None => throw (Error "Could not parse JSON from response")
     end)
    (fun error =>
       log ("Error parsing translation response: " ++ Error_toString error)
           gemini_source ;;
       throw error).

(** ** community-archive.ts *)

Record CommunityArchiveAPI : Type := mkArchive { baseUrl : string }.

Definition archive_source : option string := Some "community-archive".

(** [constructor()] *)
Definition CommunityArchiveAPI_new {D : Type} (w : World D)
  : Comp CommunityArchiveAPI :=
  let apiUrl := COMMUNITY_ARCHIVE_API_URL w in
  if unset apiUrl then
    throw (Error "COMMUNITY_ARCHIVE_API_URL environment variable is required")
  else
    let this := mkArchive (or_empty apiUrl) in
    log ("Initialized Community Archive API with base URL: " ++ baseUrl this)
        archive_source ;;
    ret this.

(** [handle.replace(/^@+/, '')] *)
Fixpoint strip_leading_at (handle : string) : string :=
  match handle with
  | String c r => if Ascii.eqb c "@"%char then strip_leading_at r else handle
  | EmptyString => EmptyString
  end.

(** The request [getRecentPopularTweets] sends. *)
Definition tweets_request (this : CommunityArchiveAPI)
  (supabaseKey : option string) (limit : Z) : Request :=
  mkRequest
    (baseUrl this
     ++ "/rest/v1/tweets?select=*&order=favorite_count.desc&limit="
     ++ Number_toString limit)
    "GET"
    [("Accept", "application/json");
     ("Content-Type", "application/json");
     ("apikey", or_empty supabaseKey);
     ("Authorization", "Bearer " ++ or_empty supabaseKey)]
    None.

(** [getRecentPopularTweets(handle, limit = 25)]; [limit] is [None] when the
    caller leaves it out. *)
Definition getRecentPopularTweets {D : Type} (this : CommunityArchiveAPI)
  (w : World D) (handle : string) (limit : option Z) : Comp (list Tweet) :=
  let limit := default 25 limit in
  try_catch
    (let cleanHandle := strip_leading_at handle in
     log ("Attempting to fetch tweets for handle: " ++ cleanHandle)
         archive_source ;;
     response <- fetch w (tweets_request this (SUPABASE_KEY w) limit) ;;
     (if negb (ok response) then
        errorText <- await (response_text response) ;;
        log ("API Error: " ++ Number_toString (status response) ++ " - "
             ++ errorText) archive_source ;;
        throw (Error ("Failed to fetch tweets: " ++ statusText response))
      else ret tt) ;;
     data <- await (response_json response) ;;
     log ("Successfully fetched tweets for " ++ cleanHandle) archive_source ;;
     tweets <- await (TweetArraySchema_parse w data) ;;
     ret tweets)
    (fun error =>
       log ("Error in getRecentPopularTweets: " ++ Error_toString error)
           archive_source ;;
       throw error).

(** ** Sample worlds

    Concrete worlds on which the operations can be run. The payload of a
    response is a well-typed [GeminiResponse]; on such a payload the reads of
    [generateInsights] find no candidate ([candidates] is empty), fail
    ([parts] is empty: [parts[0]] is [undefined] and has no [text]), or
    yield the text of the first part. *)

Definition read_typed (data : GeminiResponse) : TextRead :=
  match candidates data with
  | [] => GuardFalsy
  | candidate :: _ =>
      match parts (content candidate) with
      | [] => ReadThrows
                (TypeError "Cannot read properties of undefined (reading 'text')")
      | part :: _ => TextContent (Defined (JString (text part)))
      end
  end.

(** The text [{"description":"d"}]. *)
Definition description_only : string :=
  "{" ++ dq ++ "description" ++ dq ++ ":" ++ dq ++ "d" ++ dq ++ "}".

(** [JSON.parse] as a table over the texts the sample worlds submit to it:
    the object for [description_only], a [SyntaxError] for [{oops}], which is
    not JSON, and for any other text. *)
Definition JSON_parse_table (s : string) : Result JSON :=
  if String.eqb s description_only
  then Ok (JObject [("description", JString "d")])
  else Throw (SyntaxError "Unexpected token o in JSON at position 1").

(** The service answers every request with status 200 and one candidate
    whose only part is [answer]. *)
Definition answering (apiKey : option string) (answer : string)
  : World GeminiResponse :=
  mkWorld GeminiResponse apiKey None None
    (fun _ => Ok (mkResponse true 200 "OK" (Ok answer)
                    (Ok (mkGeminiResponse
                           [mkCandidate (mkContent [mkPart answer])]))))
    JSON_parse_table
    Ok
    (fun _ => Throw (mkError "ZodError" "Expected array, received object"))
    read_typed.

(** The archive answers every request with status 200 and [tweets]. *)
Definition archive_answering (tweets : list Tweet) : World (list Tweet) :=
  mkWorld (list Tweet) None (Some "sk") (Some "https://archive.example")
    (fun _ => Ok (mkResponse true 200 "OK" (Ok EmptyString) (Ok tweets)))
    JSON_parse_table
    (fun _ => Throw (mkError "ZodError" "Expected object, received array"))
    Ok
    (fun _ => GuardFalsy).

Definition sample_tweet : Tweet :=
  mkTweet "1" "hello" "2024-01-01T00:00:00Z" 3 "acc"
          None None None None None None None.

(** ** Counting the calls of a client *)

Definition is_CreateUser (c : Call) : bool :=
  match c with CreateUser _ => true | _ => false end.

Definition is_CreateInsight (c : Call) : bool :=
  match c with CreateInsight _ => true | _ => false end.

Definition is_CreateComparison (c : Call) : bool :=
  match c with CreateComparison _ _ => true | _ => false end.

Definition count_calls (f : Call -> bool) (cs : list Call) : Z :=
  Z.of_nat (length (List.filter f cs)).

(** ** gemini.ts, continued *)



(** ** community-archive.ts, continued *)

(** [s.split(sep)] for a separator of one character. *)
Fixpoint split_on (sep : ascii) (s : string) : list string :=
  match s with
  | EmptyString => [EmptyString]
  | String c r =>
      if Ascii.eqb c sep then EmptyString :: split_on sep r
      else match split_on sep r with
           | word :: words => String c word :: words
           | [] => [String c EmptyString]
           end
  end.

(** [pieces.join(sep)] *)
Fixpoint join_with (sep : ascii) (pieces : list string) : string :=
  match pieces with
  | [] => EmptyString
  | [word] => word
  | word :: words => word ++ String sep (join_with sep words)
  end.

Definition apostrophe : ascii := "'"%char.

Definition common_words : list string :=
  ["behind"; "after"; "before"; "could"; "would"].

(** [list.includes(word)] *)
Definition includes (l : list string) (word : string) : bool :=
  existsb (String.eqb word) l.

(** [topics.add(word)] on a [Set<string>], kept in insertion order. *)
Definition Set_add (topics : list string) (word : string) : list string :=
  if includes topics word then topics else (topics ++ [word])%list.

(** The words a tweet contributes: the pieces of its [fts] field between
    apostrophes that are longer than 3 and are not common words; nothing
    when the field is absent, [null] or empty. *)
Definition tweet_words (tweet : Tweet) : list string :=
  match fts tweet with
  | Some (Some f) =>
      if String.eqb f EmptyString then []
      else
        List.filter (fun word => negb (includes common_words word))
          (List.filter (fun word => Z.ltb 3 (Z.of_nat (String.length word)))
             (split_on apostrophe f))
  | _ => []
  end.

(** The two nested [forEach] loops of [getUserProfile]. *)
Definition collect_topics (tweets : list Tweet) : list string :=
  fold_left (fun topics tweet => fold_left Set_add (tweet_words tweet) topics)
            tweets [].

Record UserProfile : Type := mkProfile {
  profile_tweets : list Tweet;
  profile_topics : list string
}.

(** [getUserProfile(handle)] *)
Definition getUserProfile {D : Type} (this : CommunityArchiveAPI) (w : World D)
  (handle : string) : Comp UserProfile :=
  try_catch
    (let cleanHandle := strip_leading_at handle in
     log ("Fetching profile data for: " ++ cleanHandle) archive_source ;;
     tweets <- getRecentPopularTweets this w cleanHandle None ;;
     let topics := collect_topics tweets in
     ret (mkProfile tweets topics))
    (fun error =>
       log ("Error getting user profile: " ++ Error_toString error)
           archive_source ;;
       throw error).

(** ** routes.ts: [POST /api/translate]

    The handler reads [sourceText] and [targetHandle] off the request body;
    here each is a string or is absent. What the handler passes to [res] is
    its result: the status ([200] when [res.json] is called directly) and the
    JSON body. *)

Record TranslateBody : Type := mkTranslateBody {
  body_sourceText : option string;
  body_targetHandle : option string
}.

Inductive ResponseJson : Type :=
| MessageJson (message : string)
| TranslationJson (result : Translation)
| ProbeSuccessJson (result : Insights)
| ProbeFailureJson (message : string).

Record HttpResponse : Type := mkHttp {
  http_status : Z;
  http_json : ResponseJson
}.

Definition express_source : option string := Some "express".

Definition post_translate {D : Type} (communityArchive : CommunityArchiveAPI)
  (w : World D) (body : TranslateBody) : Comp HttpResponse :=
  try_catch
    (let sourceText := body_sourceText body in
     let targetHandle := body_targetHandle body in
     if unset sourceText || unset targetHandle then
       ret (mkHttp 400 (MessageJson "Source text and target handle are required"))
     else
       found <- try_catch
                  (getRecentPopularTweets communityArchive w
                     (or_empty targetHandle) None ;;
                   ret true)
                  (fun error => ret false) ;;
       if found then
         result <- translateBetweenFrames w (or_empty sourceText)
                     (or_empty targetHandle) ;;
         ret (mkHttp 200 (TranslationJson result))
       else
         ret (mkHttp 404
                (MessageJson ("Could not find Twitter profile for @"
                              ++ or_empty targetHandle))))
    (fun error =>
       let message := err_message error in
       log ("Translation error: " ++ message) express_source ;;
       ret (mkHttp 500 (MessageJson message))).

(** ** routes.ts: [GET /api/test/gemini]

    [ProbeSuccessJson result] is the body [{ success: true, result }],
    [ProbeFailureJson message] the body [{ success: false, message }]. *)
Definition get_test_gemini {D : Type} (w : World D) : Comp HttpResponse :=
  try_catch
    (result <- generateInsights w
                 "This is a test tweet. Just testing the Gemini API integration." ;;
     ret (mkHttp 200 (ProbeSuccessJson result)))
    (fun error =>
       let message := err_message error in
       log ("Gemini test error: " ++ message) express_source ;;
       ret (mkHttp 500 (ProbeFailureJson message))).

(** * Properties *)

(** ** Insertion-ordered maps *)

Section JSMapFacts.
Context {V : Type}.
Implicit Types (m : JSMap V) (k : Z) (v : V).

Lemma map_get_set_eq m k v : map_get (map_set m k v) k = Some v.
Proof.
  induction m as [|[k' v'] r IH]; simpl.
  - by rewrite Z.eqb_refl.
  - destruct (Z.eqb k' k) eqn:E; simpl.
    + by rewrite Z.eqb_refl.
    + by rewrite E.
Qed.

Lemma map_get_set_ne m k k' v :
  k <> k' -> map_get (map_set m k v) k' = map_get m k'.
Proof.
  intros Hne. induction m as [|[k0 v0] r IH]; simpl.
  - destruct (Z.eqb_spec k k'); [contradiction | done].
  - destruct (Z.eqb_spec k0 k) as [->|Hk]; simpl.
    + destruct (Z.eqb_spec k k'); [contradiction | done].
    + by rewrite IH.
Qed.

Lemma map_get_None m k : map_get m k = None <-> k ∉ map_keys m.
Proof.
  unfold map_keys. induction m as [|[k' v'] r IH]; simpl.
  - split; [intros _; apply not_elem_of_nil | done].
  - rewrite not_elem_of_cons. destruct (Z.eqb_spec k' k) as [->|Hk].
    + split; [done | intros [? _]; congruence].
    + rewrite IH. split; [intros ?; split; congruence | tauto].
Qed.

Lemma map_set_fresh m k v :
  map_get m k = None -> map_set m k v = (m ++ [(k, v)])%list.
Proof.
  induction m as [|[k' v'] r IH]; simpl; [done|].
  destruct (Z.eqb k' k); [done|]. intros H. by rewrite IH.
Qed.

Lemma map_keys_set_present m k v :
  is_Some (map_get m k) -> map_keys (map_set m k v) = map_keys m.
Proof.
  unfold map_keys. induction m as [|[k' v'] r IH]; simpl.
  - by intros [? ?].
  - destruct (Z.eqb_spec k' k) as [->|Hk]; simpl; [done|].
    intros H. by rewrite IH.
Qed.

Lemma map_set_present_length m k v :
  is_Some (map_get m k) -> length (map_set m k v) = length m.
Proof.
  induction m as [|[k' v'] r IH]; simpl.
  - by intros [? ?].
  - destruct (Z.eqb_spec k' k) as [->|Hk]; simpl; [done|].
    intros H. by rewrite IH.
Qed.

End JSMapFacts.

(** ** Objects *)

Lemma prop_spread (base over : Obj) (k : string) :
  prop (spread base over) k
  = match over !! k with Some v => v | None => prop base k end.
Proof.
  unfold prop, spread. rewrite lookup_union.
  destruct (over !! k), (base !! k); reflexivity.
Qed.

Lemma lookup_spread (base over : Obj) (k : string) :
  spread base over !! k
  = match over !! k with Some v => Some v | None => base !! k end.
Proof.
  unfold spread. rewrite lookup_union.
  destruct (over !! k), (base !! k); reflexivity.
Qed.

(** ** Ids issued so far *)

Lemma issued_succ (next : Z) : 1 <= next -> issued (next + 1) = (issued next ++ [next])%list.
Proof.
  intros H. unfold issued.
  replace (Z.to_nat (next + 1 - 1)) with (S (Z.to_nat (next - 1))) by lia.
  rewrite seq_S, map_app. simpl. do 3 f_equal. lia.
Qed.

Lemma elem_of_issued (k next : Z) : k ∈ issued next <-> 1 <= k < next.
Proof.
  unfold issued. rewrite list_elem_of_In, in_map_iff. split.
  - intros (n & <- & Hn). apply in_seq in Hn. lia.
  - intros H. exists (Z.to_nat k). split; [lia|]. apply in_seq. lia.
Qed.

Lemma counters_ok_new : counters_ok MemStorage_new.
Proof. repeat split; done. Qed.

Lemma fresh_key (m : JSMap Obj) (next : Z) :
  map_keys m = issued next -> map_get m next = None.
Proof.
  intros H. apply map_get_None. rewrite H, elem_of_issued. lia.
Qed.

Lemma keys_after_create (m : JSMap Obj) (next : Z) (o : Obj) :
  1 <= next -> map_keys m = issued next ->
  map_set m next o = (m ++ [(next, o)])%list
  /\ map_keys (map_set m next o) = issued (next + 1).
Proof.
  intros H1 Hk. pose proof (fresh_key _ _ Hk) as Hf.
  rewrite (map_set_fresh _ _ _ Hf). split; [done|].
  unfold map_keys in *. rewrite map_app, Hk, issued_succ by done. done.
Qed.

Lemma counters_ok_perform (this : MemStorage) (c : Call) :
  counters_ok this -> counters_ok (perform this c).
Proof.
  intros ((Hu1 & Hu) & (Hi1 & Hi) & (Hc1 & Hc)).
  destruct c as [p|p|id p|now p]; unfold counters_ok; simpl.
  - destruct (keys_after_create _ _ (spread {["id" := VNum (user (currentIds this))]} p) Hu1 Hu)
      as [_ Hk].
    repeat split; try done; lia.
  - destruct (keys_after_create _ _ (spread {["id" := VNum (insight (currentIds this))]} p) Hi1 Hi)
      as [_ Hk].
    repeat split; try done; lia.
  - unfold updateInsight. destruct (map_get (insights this) id) as [e|] eqn:E; simpl.
    + rewrite map_keys_set_present by (rewrite E; eauto). done.
    + done.
  - destruct (keys_after_create _ _
        (<["createdAt" := VDate now]>
           (spread {["id" := VNum (comparison (currentIds this))]} p)) Hc1 Hc)
      as [_ Hk].
    repeat split; try done; lia.
Qed.

Lemma counters_ok_run (cs : list Call) (this : MemStorage) :
  counters_ok this -> counters_ok (run this cs).
Proof.
  revert this. induction cs as [|c cs IH]; intros this H; simpl; [done|].
  apply IH. by apply counters_ok_perform.
Qed.

(** ** Ids: what the counters issue, and what the records carry *)

(** From the empty repository, whatever the calls and their payloads, the
    keys under which records are stored are 1, 2, 3, ... per kind. *)
Lemma keys_of_run (cs : list Call) :
  let s := run MemStorage_new cs in
  map_keys (users s) = issued (user (currentIds s))
  /\ map_keys (insights s) = issued (insight (currentIds s))
  /\ map_keys (comparisons s) = issued (comparison (currentIds s)).
Proof.
  destruct (counters_ok_run cs _ counters_ok_new) as ((_ & ?) & (_ & ?) & (_ & ?)).
  done.
Qed.

(** A creation stores the record last, under the counter's value, which is
    above every key in use, and advances the counter by one. *)
Lemma createUser_issues_next (this : MemStorage) (p : Obj) :
  counters_ok this ->
  let r := createUser this p in
  users (snd r) = (users this ++ [(user (currentIds this), fst r)])%list
  /\ user (currentIds (snd r)) = user (currentIds this) + 1
  /\ forall k, k ∈ map_keys (users this) -> k < user (currentIds this).
Proof.
  intros ((H1 & Hk) & _). simpl.
  destruct (keys_after_create _ _ (spread {["id" := VNum (user (currentIds this))]} p) H1 Hk)
    as [-> _].
  repeat split. intros k. rewrite Hk, elem_of_issued. lia.
Qed.

(** A payload without an [id] property gets the counter's value as its id. *)
Lemma created_id_from_counter (p : Obj) (id : Z) :
  p !! "id" = None -> prop (spread {["id" := VNum id]} p) "id" = VNum id.
Proof.
  intros H. rewrite prop_spread, H. unfold prop. by rewrite lookup_singleton_eq.
Qed.

(** A payload with an [id] property keeps it. *)
Lemma created_id_from_payload (p : Obj) (id : Z) (v : Val) :
  p !! "id" = Some v -> prop (spread {["id" := VNum id]} p) "id" = v.
Proof. intros H. by rewrite prop_spread, H. Qed.

(** The other properties of the payload are copied. *)
Lemma created_prop_other (p : Obj) (id : Z) (k : string) :
  k <> "id" -> prop (spread {["id" := VNum id]} p) k = prop p k.
Proof.
  intros H. rewrite prop_spread. unfold prop.
  destruct (p !! k); [done|]. by rewrite lookup_singleton_ne.
Qed.

Lemma ids_are_keys_set (m : JSMap Obj) (k : Z) (o : Obj) :
  ids_are_keys m -> prop o "id" = VNum k -> ids_are_keys (map_set m k o).
Proof.
  unfold ids_are_keys. intros Hm Ho.
  induction m as [|[k' v'] r IH]; simpl.
  - by constructor.
  - apply Forall_cons in Hm as [Hh Hr].
    destruct (Z.eqb k' k); constructor; auto.
Qed.

Lemma ids_are_keys_get (m : JSMap Obj) (k : Z) (o : Obj) :
  ids_are_keys m -> map_get m k = Some o -> prop o "id" = VNum k.
Proof.
  unfold ids_are_keys. intros Hm.
  induction m as [|[k' v'] r IH]; simpl; [done|].
  apply Forall_cons in Hm as [Hh Hr].
  destruct (Z.eqb_spec k' k) as [->|]; [|by auto].
  by intros [= <-].
Qed.

Lemma ids_are_keys_perform (this : MemStorage) (c : Call) :
  carries_no_id c ->
  ids_are_keys (users this) /\ ids_are_keys (insights this)
  /\ ids_are_keys (comparisons this) ->
  ids_are_keys (users (perform this c))
  /\ ids_are_keys (insights (perform this c))
  /\ ids_are_keys (comparisons (perform this c)).
Proof.
  intros Hc (Hu & Hi & Hk). destruct c as [p|p|id p|now p]; simpl in *.
  - repeat split; try done.
    apply ids_are_keys_set; [done|]. by apply created_id_from_counter.
  - repeat split; try done.
    apply ids_are_keys_set; [done|]. by apply created_id_from_counter.
  - unfold updateInsight.
    destruct (map_get (insights this) id) as [existing|] eqn:E; simpl;
      repeat split; try done.
    apply ids_are_keys_set; [done|]. rewrite prop_spread, Hc.
    by apply (ids_are_keys_get (insights this)).
  - repeat split; try done.
    apply ids_are_keys_set; [done|]. unfold prop.
    rewrite lookup_insert_ne by done.
    fold (prop (spread {["id" := VNum (comparison (currentIds this))]} p) "id").
    by apply created_id_from_counter.
Qed.

(** When no call passes an [id] property, every stored record carries the
    id the counter issued for it: per kind, the ids of the records are
    1, 2, 3, ... in the order of creation. *)
Lemma ids_of_run_without_payload_ids (cs : list Call) :
  Forall carries_no_id cs ->
  let s := run MemStorage_new cs in
  (ids_are_keys (users s) /\ map_keys (users s) = issued (user (currentIds s)))
  /\ (ids_are_keys (insights s)
      /\ map_keys (insights s) = issued (insight (currentIds s)))
  /\ (ids_are_keys (comparisons s)
      /\ map_keys (comparisons s) = issued (comparison (currentIds s))).
Proof.
  intros Hcs. simpl.
  assert (Hids : forall this,
             ids_are_keys (users this) /\ ids_are_keys (insights this)
             /\ ids_are_keys (comparisons this) ->
             ids_are_keys (users (run this cs))
             /\ ids_are_keys (insights (run this cs))
             /\ ids_are_keys (comparisons (run this cs))).
  { induction Hcs as [|c cs Hc Hcs IH]; intros this H; simpl; [done|].
    apply IH. by apply ids_are_keys_perform. }
  destruct (Hids MemStorage_new) as (Hu & Hi & Hk).
  { repeat split; constructor. }
  destruct (keys_of_run cs) as (Ku & Ki & Kk). done.
Qed.

(** C1. [createUser] is given, twice, the payload
    [{ id: 7, username: "a", twitterHandle: "a" }], which the insert schema
    accepts. Both returned records carry the id 7 rather than the ids 1 and 2
    the counter issued and under which they are stored: the ids of the
    records are neither increasing nor unique, and no user is found under 7. *)
Theorem createUser_payload_id_replaces_issued_id :
  let p : Obj := <["id" := VNum 7]>
                   (<["username" := VStr "a"]> {["twitterHandle" := VStr "a"]}) in
  let r1 := createUser MemStorage_new p in
  let r2 := createUser (snd r1) p in
  prop (fst r1) "id" = VNum 7
  /\ prop (fst r2) "id" = VNum 7
  /\ map_keys (users (snd r2)) = [1; 2]
  /\ getUser (snd r2) 7 = None.
Proof. vm_compute. repeat split. Qed.

(** C9. When the payload of [createUser], [createInsight] or
    [createComparison] has an [id] property, the record returned carries that
    value, and the same record is stored under the counter's value; a lookup
    under any other key, the record's own id included, does not see it and
    answers as it did before the creation. *)
Theorem payload_id_overrides_counter (this : MemStorage) (now : Z)
  (p : Obj) (v : Val) :
  p !! "id" = Some v ->
  (let r := createUser this p in
   let key := user (currentIds this) in
   prop (fst r) "id" = v
   /\ getUser (snd r) key = Some (fst r)
   /\ forall n, n <> key -> getUser (snd r) n = getUser this n)
  /\ (let r := createInsight this p in
      let key := insight (currentIds this) in
      prop (fst r) "id" = v
      /\ map_get (insights (snd r)) key = Some (fst r)
      /\ forall n, n <> key ->
           map_get (insights (snd r)) n = map_get (insights this) n)
  /\ (let r := createComparison this now p in
      let key := comparison (currentIds this) in
      prop (fst r) "id" = v
      /\ getComparison (snd r) key = Some (fst r)
      /\ forall n, n <> key -> getComparison (snd r) n = getComparison this n).
Proof.
  intros H. unfold getUser, getComparison. simpl. repeat split.
  - by apply created_id_from_payload.
  - apply map_get_set_eq.
  - intros n Hn. by apply map_get_set_ne.
  - by apply created_id_from_payload.
  - apply map_get_set_eq.
  - intros n Hn. by apply map_get_set_ne.
  - unfold prop. rewrite lookup_insert_ne by done.
    fold (prop (spread {["id" := VNum (comparison (currentIds this))]} p) "id").
    by apply created_id_from_payload.
  - apply map_get_set_eq.
  - intros n Hn. by apply map_get_set_ne.
Qed.

(** At the payload [{ id: 7, username: "a", twitterHandle: "a" }] on the
    empty repository: the record has id 7, it is stored under key 1, and
    [getUser(7)] finds nothing. *)
Lemma payload_id_overrides_counter_witness :
  let p : Obj := <["id" := VNum 7]>
                   (<["username" := VStr "a"]> {["twitterHandle" := VStr "a"]}) in
  let r := createUser MemStorage_new p in
  prop (fst r) "id" = VNum 7
  /\ getUser (snd r) 1 = Some (fst r)
  /\ getUser (snd r) 7 = None.
Proof.
  intros p r.
  assert (Hp : p !! "id" = Some (VNum 7)) by (vm_compute; reflexivity).
  destruct (payload_id_overrides_counter MemStorage_new 0 p (VNum 7) Hp)
    as ((H1 & H2 & H3) & _).
  split; [exact H1|]. split; [exact H2|].
  etransitivity; [apply (H3 7); discriminate | reflexivity].
Defined.

(** ** Creating, then looking up *)

Lemma find_values_set (m : JSMap Obj) (k : Z) (o : Obj) (f : Obj -> bool) :
  f o = true ->
  (forall x, x ∈ map_values m -> f x = false) ->
  find f (map_values (map_set m k o)) = Some o.
Proof.
  intros Ho. unfold map_values.
  induction m as [|[k' v'] r IH]; simpl; intros Hm.
  - by rewrite Ho.
  - destruct (Z.eqb k' k); simpl.
    + by rewrite Ho.
    + rewrite (Hm v') by apply list_elem_of_here.
      apply IH. intros x Hx. apply Hm. by apply list_elem_of_further.
Qed.

(** C2, as stated, fails for insights: on the empty repository
    [createInsight({ userId: 5, description: "d" })] returns a record with
    id 1, and [getInsight(1)] finds nothing, because [getInsight] looks for
    an insight whose [userId] is its argument. *)
Lemma createInsight_not_found_by_id :
  let p : Obj := <["userId" := VNum 5]> {["description" := VStr "d"]} in
  let r := createInsight MemStorage_new p in
  prop (fst r) "id" = VNum 1
  /\ getInsight (snd r) 1 = None
  /\ getInsight (snd r) 1 <> Some (fst r).
Proof. vm_compute. repeat split. discriminate. Qed.

(** C2, amended. A record created by [createUser] or [createComparison] from
    a payload without an [id] property is returned unchanged by [getUser] or
    [getComparison] at the record's id. A record created by [createInsight]
    is returned unchanged by [getInsight] at the record's [userId], when no
    insight stored before has that [userId]. *)
Theorem created_record_is_retrievable (this : MemStorage) (now n : Z)
  (pu pc pi : Obj) :
  pu !! "id" = None ->
  pc !! "id" = None ->
  prop pi "userId" = VNum n ->
  (forall i, i ∈ map_values (insights this) -> prop i "userId" <> VNum n) ->
  (let r := createUser this pu in
   exists id, prop (fst r) "id" = VNum id /\ getUser (snd r) id = Some (fst r))
  /\ (let r := createComparison this now pc in
      exists id, prop (fst r) "id" = VNum id
                 /\ getComparison (snd r) id = Some (fst r))
  /\ (let r := createInsight this pi in
      prop (fst r) "userId" = VNum n /\ getInsight (snd r) n = Some (fst r)).
Proof.
  intros Hu Hc Hi Hfresh. repeat split.
  - exists (user (currentIds this)). simpl. split.
    + by apply created_id_from_counter.
    + apply map_get_set_eq.
  - exists (comparison (currentIds this)). simpl. split.
    + unfold prop. rewrite lookup_insert_ne by done.
      fold (prop (spread {["id" := VNum (comparison (currentIds this))]} pc) "id").
      by apply created_id_from_counter.
    + apply map_get_set_eq.
  - simpl. by rewrite created_prop_other.
  - unfold getInsight. simpl. apply find_values_set.
    + rewrite created_prop_other by done. rewrite Hi. simpl. apply Z.eqb_refl.
    + intros x Hx. specialize (Hfresh x Hx).
      destruct (prop x "userId") as [| | |m| | |]; simpl; try done.
      apply Z.eqb_neq. congruence.
Qed.

Lemma created_record_is_retrievable_witness :
  let pu : Obj := <["username" := VStr "a"]> {["twitterHandle" := VStr "alice"]} in
  let pc : Obj := <["userAId" := VNum 1]> {["userBId" := VNum 2]} in
  let pi : Obj := <["userId" := VNum 5]> {["description" := VStr "d"]} in
  (exists id, prop (fst (createUser MemStorage_new pu)) "id" = VNum id
              /\ getUser (snd (createUser MemStorage_new pu)) id
                 = Some (fst (createUser MemStorage_new pu)))
  /\ getInsight (snd (createInsight MemStorage_new pi)) 5
     = Some (fst (createInsight MemStorage_new pi)).
Proof.
  intros pu pc pi.
  destruct (created_record_is_retrievable MemStorage_new 0 5 pu pc pi)
    as (H1 & _ & _ & H3).
  - vm_compute; reflexivity.
  - vm_compute; reflexivity.
  - vm_compute; reflexivity.
  - intros i Hi. simpl in Hi. by apply not_elem_of_nil in Hi.
  - split; [exact H1 | exact H3].
Defined.

(** ** [updateInsight] *)

(** C5. [updateInsight(id, updateData)] on a key with no insight throws
    [Error("Insight not found: <id>")] and leaves the repository as it was.
    On a key with an insight it returns the existing record overlaid, property
    by property, with [updateData], and stores it under the same key; the
    other keys, their order, the other maps and the counters are untouched. *)
Theorem updateInsight_not_found_or_merged (this : MemStorage) (id : Z)
  (updateData : Obj) :
  (map_get (insights this) id = None ->
   updateInsight this id updateData
   = (Throw (Error ("Insight not found: " ++ Number_toString id)), this))
  /\ (forall existing, map_get (insights this) id = Some existing ->
      exists updated this',
        updateInsight this id updateData = (Ok updated, this')
        /\ (forall k, updated !! k = match updateData !! k with
                                     | Some v => Some v
                                     | None => existing !! k
                                     end)
        /\ map_get (insights this') id = Some updated
        /\ (forall id', id' <> id ->
              map_get (insights this') id' = map_get (insights this) id')
        /\ map_keys (insights this') = map_keys (insights this)
        /\ users this' = users this
        /\ comparisons this' = comparisons this
        /\ currentIds this' = currentIds this).
Proof.
  split.
  - intros H. unfold updateInsight. by rewrite H.
  - intros existing H. unfold updateInsight. rewrite H.
    eexists _, _. split; [reflexivity|]. simpl. repeat split.
    + intros k. apply lookup_spread.
    + apply map_get_set_eq.
    + intros id' Hne. apply map_get_set_ne. congruence.
    + apply map_keys_set_present. rewrite H. eauto.
Qed.

Lemma updateInsight_not_found_or_merged_witness :
  let s := snd (createInsight MemStorage_new
                  (<["userId" := VNum 5]> {["description" := VStr "d"]})) in
  let upd : Obj := {["description" := VStr "e"]} in
  updateInsight s 2 upd = (Throw (Error "Insight not found: 2"), s)
  /\ exists updated this',
       updateInsight s 1 upd = (Ok updated, this')
       /\ map_get (insights this') 1 = Some updated.
Proof.
  intros s upd.
  destruct (updateInsight_not_found_or_merged s 2 upd) as [Hmiss _].
  destruct (updateInsight_not_found_or_merged s 1 upd) as [_ Hhit].
  split.
  - apply Hmiss. reflexivity.
  - destruct (Hhit _ eq_refl) as (u & s' & Hr & _ & Hg & _).
    exists u, s'. split; [exact Hr | exact Hg].
Defined.

(** ** [createComparison] *)

(** C6. Whatever the payload of [createComparison], a [createdAt] of its
    own included, the record returned, which is the record stored, has the
    time of the insertion as [createdAt] and the payload's [userAId] and
    [userBId]. *)
Theorem createComparison_stamps_insertion_time (this : MemStorage) (now : Z)
  (p : Obj) :
  let r := createComparison this now p in
  prop (fst r) "createdAt" = VDate now
  /\ prop (fst r) "userAId" = prop p "userAId"
  /\ prop (fst r) "userBId" = prop p "userBId"
  /\ getComparison (snd r) (comparison (currentIds this)) = Some (fst r).
Proof.
  simpl. repeat split.
  - unfold prop. by rewrite lookup_insert_eq.
  - unfold prop. rewrite lookup_insert_ne by done.
    fold (prop (spread {["id" := VNum (comparison (currentIds this))]} p) "userAId").
    fold (prop p "userAId"). by apply created_prop_other.
  - unfold prop. rewrite lookup_insert_ne by done.
    fold (prop (spread {["id" := VNum (comparison (currentIds this))]} p) "userBId").
    fold (prop p "userBId"). by apply created_prop_other.
  - apply map_get_set_eq.
Qed.

(** ** Running computations *)

Ltac run_comp :=
  cbv beta iota zeta delta [bind try_catch await ret throw log fetch].

Lemma bind_Ok {A B : Type} (c : Comp A) (k : A -> Comp B) (fx fx' : Effects)
  (a : A) :
  c fx = (Ok a, fx') -> bind c k fx = k a fx'.
Proof. intros H. unfold bind. by rewrite H. Qed.

Lemma bind_Throw {A B : Type} (c : Comp A) (k : A -> Comp B)
  (fx fx' : Effects) (e : JSError) :
  c fx = (Throw e, fx') -> bind c k fx = (Throw e, fx').
Proof. intros H. unfold bind. by rewrite H. Qed.

(** ** [generateInsights] *)

(** The inner [try]/[catch] never throws. *)
Lemma parse_insights_caught {D : Type} (w : World D) (data : D) (fx : Effects) :
  exists r, fst (try_catch (parse_insights w data)
                   (fun parseError =>
                      log ("Error parsing Gemini response: "
                           ++ Error_toString parseError) gemini_source ;;
                      ret fallback_parse_error) fx) = Ok r.
Proof.
  unfold parse_insights.
  destruct (read_text w data) as [|e|[|[| | |t| |]]]; run_comp; simpl; eauto.
  destruct (match_json t) as [m|]; simpl; eauto.
  destruct (JSON_parse w m) as [j|e]; simpl; eauto.
  destruct (member j "description"); simpl; eauto.
  destruct (member j "topics"); simpl; eauto.
Qed.

(** A [try] whose handler always resolves always resolves, whatever its
    body does. *)
Lemma try_catch_resolves {A : Type} (c : Comp A) (h : JSError -> Comp A)
  (fx : Effects) :
  (forall e fx', exists r, fst (h e fx') = Ok r) ->
  exists r, fst (try_catch c h fx) = Ok r.
Proof.
  intros Hh. unfold try_catch. destruct (c fx) as [[a|e] fx']; simpl; eauto.
Qed.

(** Without the key, the guard before the [try] throws. *)
Lemma generateInsights_unconfigured {D : Type} (w : World D)
  (tweetHistory : string) (fx : Effects) :
  unset (GEMINI_API_KEY w) = true ->
  generateInsights w tweetHistory fx
  = (Throw (Error "GEMINI_API_KEY environment variable is not set"), fx).
Proof. intros H. unfold generateInsights. by rewrite H. Qed.

(** C3, as stated, fails when the configuration is missing: with
    [GEMINI_API_KEY] unset, [generateInsights] rejects with
    [Error("GEMINI_API_KEY environment variable is not set")] and resolves to
    no pair. *)
Lemma generateInsights_throws_without_key :
  let w := answering None "anything" in
  fst (generateInsights w "tweets" no_effects)
  = Throw (Error "GEMINI_API_KEY environment variable is not set")
  /\ ~ exists r, fst (generateInsights w "tweets" no_effects) = Ok r.
Proof.
  split; [reflexivity|]. intros [r H]. vm_compute in H. discriminate.
Qed.

(** C3, amended. With [GEMINI_API_KEY] set, [generateInsights] resolves to a
    pair for every tweet history and every behaviour of the network, of the
    response and of the parser. With the key unset, the guard before the
    [try] rejects with the configuration error. *)
Theorem generateInsights_resolves_when_configured {D : Type} (w : World D)
  (tweetHistory : string) (fx : Effects) :
  (unset (GEMINI_API_KEY w) = false ->
   exists r, fst (generateInsights w tweetHistory fx) = Ok r)
  /\ (unset (GEMINI_API_KEY w) = true ->
      fst (generateInsights w tweetHistory fx)
      = Throw (Error "GEMINI_API_KEY environment variable is not set")).
Proof.
  split; intros H.
  - unfold generateInsights. rewrite H.
    unfold bind at 1. unfold log at 1. unfold bind at 1. unfold log at 1.
    apply try_catch_resolves. intros e fx'. run_comp. simpl. eauto.
  - by rewrite generateInsights_unconfigured.
Qed.

Lemma generateInsights_resolves_when_configured_witness :
  (exists r,
     fst (generateInsights (answering (Some "key") "Sure: {oops}") "tweets"
            no_effects) = Ok r)
  /\ fst (generateInsights (answering None "Sure: {oops}") "tweets" no_effects)
     = Throw (Error "GEMINI_API_KEY environment variable is not set").
Proof.
  split.
  - apply (proj1 (generateInsights_resolves_when_configured
                    (answering (Some "key") "Sure: {oops}") "tweets"
                    no_effects)).
    reflexivity.
  - apply (proj2 (generateInsights_resolves_when_configured
                    (answering None "Sure: {oops}") "tweets" no_effects)).
    reflexivity.
Defined.

(** A network failure, a non-success status and an unreadable body all end
    in the handler of the outer [try]. *)
Lemma generateInsights_service_failure {D : Type} (w : World D)
  (tweetHistory : string) (fx : Effects) :
  unset (GEMINI_API_KEY w) = false ->
  let outcome := fetch_outcome w (insights_request (GEMINI_API_KEY w)
                                    (insights_prompt tweetHistory)) in
  (forall e, outcome = Throw e \/
             (exists response, outcome = Ok response
                /\ (ok response = false \/ response_json response = Throw e)) ->
   fst (generateInsights w tweetHistory fx) = Ok fallback_unavailable).
Proof.
  intros H outcome e Hcase. unfold generateInsights. rewrite H. run_comp.
  fold outcome.
  destruct Hcase as [-> | (response & -> & [Hok | Hjson])]; [reflexivity| |].
  - rewrite Hok. simpl. destruct (response_text response); reflexivity.
  - rewrite Hjson. destruct (ok response); simpl.
    + reflexivity.
    + destruct (response_text response); reflexivity.
Qed.

(** C4, as stated, fails when parsing throws: the service answers
    [Sure: {oops}]; the regular expression carves out [{oops}], on which
    [JSON.parse] throws; [generateInsights] then resolves to the fallback of
    the inner [catch], which has one topic and another description. *)
Lemma parse_failure_gets_other_fallback :
  let w := answering (Some "key") "Sure: {oops}" in
  match_json "Sure: {oops}" = Some "{oops}"
  /\ JSON_parse w "{oops}"
     = Throw (SyntaxError "Unexpected token o in JSON at position 1")
  /\ fst (generateInsights w "tweets" no_effects) = Ok fallback_parse_error
  /\ fst (generateInsights w "tweets" no_effects) <> Ok fallback_no_json.
Proof.
  split; [reflexivity|]. split; [reflexivity|].
  assert (H : fst (generateInsights (answering (Some "key") "Sure: {oops}")
                     "tweets" no_effects) = Ok fallback_parse_error)
    by (vm_compute; reflexivity).
  split; [exact H|]. rewrite H. discriminate.
Qed.

(** C4, amended. The service answered with a text. When the text contains
    no brace-delimited span, [generateInsights] resolves to the pair with
    the topics [Technology] and [Social Media]. When [JSON.parse] throws on
    the span, it resolves to the pair of the inner [catch]: the description
    [Error parsing AI response. The user appears to be active on social
    media.] and the single topic [Social Media]. *)
Theorem generateInsights_fallback_pairs {D : Type} (w : World D)
  (tweetHistory : string) (fx : Effects) (response : Response D) (data : D)
  (textContent : string) :
  unset (GEMINI_API_KEY w) = false ->
  fetch_outcome w (insights_request (GEMINI_API_KEY w)
                     (insights_prompt tweetHistory)) = Ok response ->
  ok response = true ->
  response_json response = Ok data ->
  read_text w data = TextContent (Defined (JString textContent)) ->
  (match_json textContent = None ->
   fst (generateInsights w tweetHistory fx) = Ok fallback_no_json)
  /\ (forall jsonStr e,
        match_json textContent = Some jsonStr ->
        JSON_parse w jsonStr = Throw e ->
        fst (generateInsights w tweetHistory fx) = Ok fallback_parse_error).
Proof.
  intros Hkey Hfetch Hok Hjson Hread.
  split.
  - intros Hm. unfold generateInsights, parse_insights. rewrite Hkey. run_comp.
    rewrite Hfetch, Hok. simpl. rewrite Hjson, Hread, Hm. reflexivity.
  - intros jsonStr e Hm Hp. unfold generateInsights, parse_insights.
    rewrite Hkey. run_comp.
    rewrite Hfetch, Hok. simpl. rewrite Hjson, Hread, Hm, Hp. reflexivity.
Qed.

Lemma generateInsights_fallback_pairs_witness :
  fst (generateInsights (answering (Some "key") "no braces here") "tweets"
         no_effects) = Ok fallback_no_json
  /\ fst (generateInsights (answering (Some "key") "Sure: {oops}") "tweets"
            no_effects) = Ok fallback_parse_error.
Proof.
  split.
  - refine (proj1 (generateInsights_fallback_pairs
                     (answering (Some "key") "no braces here") "tweets"
                     no_effects _ _ "no braces here"
                     eq_refl eq_refl eq_refl eq_refl eq_refl) eq_refl).
  - refine (proj2 (generateInsights_fallback_pairs
                     (answering (Some "key") "Sure: {oops}") "tweets"
                     no_effects _ _ "Sure: {oops}"
                     eq_refl eq_refl eq_refl eq_refl eq_refl)
                  "{oops}" _ eq_refl eq_refl).
Defined.

(** ** [translateBetweenFrames] *)

(** A failure of [generateText] is the failure of [translateBetweenFrames]. *)
Lemma translateBetweenFrames_generateText_fails {D : Type} (w : World D)
  (sourceText targetHandle : string) (fx : Effects) (e : JSError) :
  fst (generateText w (translation_prompt sourceText targetHandle)
         translation_options fx) = Throw e ->
  fst (translateBetweenFrames w sourceText targetHandle fx) = Throw e.
Proof.
  intros H. unfold translateBetweenFrames.
  destruct (generateText w (translation_prompt sourceText targetHandle)
              translation_options fx) as [[r|e'] fx1] eqn:E; simpl in H.
  - discriminate.
  - injection H as ->. by rewrite (bind_Throw _ _ _ _ _ E).
Qed.

(** C8. [generateText] resolved to [response]. If no brace-delimited span
    is found in it, [translateBetweenFrames] rejects with
    [Error("Could not parse JSON from response")]; if one is found and
    [JSON.parse] throws on it, [translateBetweenFrames] rejects with that
    very error. In neither case does it resolve to a value. *)
Theorem translateBetweenFrames_propagates {D : Type} (w : World D)
  (sourceText targetHandle : string) (fx : Effects) (response : string) :
  fst (generateText w (translation_prompt sourceText targetHandle)
         translation_options fx) = Ok response ->
  (match_json response = None ->
   fst (translateBetweenFrames w sourceText targetHandle fx)
   = Throw (Error "Could not parse JSON from response"))
  /\ (forall jsonMatch e,
        match_json response = Some jsonMatch ->
        JSON_parse w jsonMatch = Throw e ->
        fst (translateBetweenFrames w sourceText targetHandle fx) = Throw e).
Proof.
  intros H. unfold translateBetweenFrames.
  destruct (generateText w (translation_prompt sourceText targetHandle)
              translation_options fx) as [[r|e'] fx1] eqn:E; simpl in H;
    [injection H as -> | discriminate].
  rewrite (bind_Ok _ _ _ _ _ E). split.
  - intros Hm. run_comp. rewrite Hm. reflexivity.
  - intros jsonMatch e Hm Hp. run_comp. rewrite Hm, Hp. reflexivity.
Qed.

Lemma translateBetweenFrames_propagates_witness :
  fst (translateBetweenFrames (answering (Some "key") "no braces here")
         "source" "target" no_effects)
  = Throw (Error "Could not parse JSON from response")
  /\ fst (translateBetweenFrames (answering (Some "key") "Sure: {oops}")
            "source" "target" no_effects)
     = Throw (SyntaxError "Unexpected token o in JSON at position 1").
Proof.
  split.
  - refine (proj1 (translateBetweenFrames_propagates
                     (answering (Some "key") "no braces here")
                     "source" "target" no_effects "no braces here" eq_refl)
                  eq_refl).
  - refine (proj2 (translateBetweenFrames_propagates
                     (answering (Some "key") "Sure: {oops}")
                     "source" "target" no_effects "Sure: {oops}" eq_refl)
                  "{oops}" _ eq_refl eq_refl).
Defined.

(** ** [getRecentPopularTweets] *)

(** C10. For any two handles and the same limit, [getRecentPopularTweets]
    sends the same single request, whose URL and headers are built from the
    base URL, the key and the limit only, and it ends with the same
    outcome. *)
Theorem getRecentPopularTweets_ignores_handle {D : Type}
  (this : CommunityArchiveAPI) (w : World D) (handle1 handle2 : string)
  (limit : option Z) (fx : Effects) :
  let r1 := getRecentPopularTweets this w handle1 limit fx in
  let r2 := getRecentPopularTweets this w handle2 limit fx in
  requests (snd r1)
  = (requests fx
     ++ [tweets_request this (SUPABASE_KEY w) (default 25 limit)])%list
  /\ requests (snd r1) = requests (snd r2)
  /\ fst r1 = fst r2.
Proof.
  unfold getRecentPopularTweets. run_comp.
  destruct (fetch_outcome w
              (tweets_request this (SUPABASE_KEY w) (default 25 limit)))
    as [response|e]; simpl; [|done].
  destruct (ok response); simpl.
  - destruct (response_json response) as [data|e]; simpl; [|done].
    destruct (TweetArraySchema_parse w data); done.
  - destruct (response_text response); done.
Qed.

(** The handle reaches the console only, with its leading [@]s removed. *)
Lemma getRecentPopularTweets_logs_clean_handle {D : Type}
  (this : CommunityArchiveAPI) (w : World D) (handle : string)
  (limit : option Z) (fx : Effects) :
  exists rest,
    console (snd (getRecentPopularTweets this w handle limit fx))
    = (console fx
       ++ console_line ("Attempting to fetch tweets for handle: "
                        ++ strip_leading_at handle) archive_source
       :: rest)%list.
Proof.
  unfold getRecentPopularTweets. run_comp.
  destruct (fetch_outcome w
              (tweets_request this (SUPABASE_KEY w) (default 25 limit)))
    as [response|e]; simpl.
  - destruct (ok response); simpl.
    + destruct (response_json response) as [data|e]; simpl.
      * destruct (TweetArraySchema_parse w data); simpl;
          rewrite <- ?app_assoc; simpl; eauto.
      * rewrite <- ?app_assoc; simpl; eauto.
    + destruct (response_text response); simpl;
        rewrite <- ?app_assoc; simpl; eauto.
  - rewrite <- ?app_assoc; simpl; eauto.
Qed.

(** ** [getUserByTwitterHandle] *)

Lemma find_first {A : Type} (f : A -> bool) (l : list A) (x : A) :
  find f l = Some x ->
  f x = true
  /\ exists before after,
       l = (before ++ x :: after)%list /\ forall y, y ∈ before -> f y = false.
Proof.
  induction l as [|a l IH]; simpl; [done|].
  destruct (f a) eqn:E.
  - intros [= ->]. split; [done|]. exists [], l. split; [done|].
    intros y Hy. by apply not_elem_of_nil in Hy.
  - intros H. destruct (IH H) as (Hx & before & after & -> & Hb).
    split; [done|]. exists (a :: before), after. split; [done|].
    intros y Hy. apply elem_of_cons in Hy as [-> | Hy]; auto.
Qed.

Lemma find_None_iff {A : Type} (f : A -> bool) (l : list A) :
  find f l = None <-> forall y, y ∈ l -> f y = false.
Proof.
  induction l as [|a l IH]; simpl.
  - split; [|done]. intros _ y Hy. by apply not_elem_of_nil in Hy.
  - destruct (f a) eqn:E.
    + split; [done|]. intros H. rewrite (H a) in E by apply list_elem_of_here.
      discriminate.
    + rewrite IH. split.
      * intros H y Hy. apply elem_of_cons in Hy as [-> | Hy]; auto.
      * intros H y Hy. apply H. by apply list_elem_of_further.
Qed.

Lemma strict_equals_string_true (v : Val) (s : string) :
  strict_equals_string v s = true <-> v = VStr s.
Proof.
  destruct v; simpl; try (split; [discriminate | congruence]).
  rewrite String.eqb_eq. split; congruence.
Qed.

Lemma strict_equals_string_false (v : Val) (s : string) :
  strict_equals_string v s = false <-> v <> VStr s.
Proof.
  rewrite <- strict_equals_string_true.
  destruct (strict_equals_string v s); split; congruence.
Qed.

Lemma at_prefix_differs (s : string) : String "@"%char s <> s.
Proof.
  intros H. apply (f_equal String.length) in H. simpl in H. lia.
Qed.

(** C7. [getUserByTwitterHandle(handle)] returns the first user, in
    insertion order, whose [twitterHandle] is exactly [handle], and nothing
    when there is none; asked for [@h] it never returns a user stored with
    the handle [h]. Removing leading [@]s is what the archive client does
    with the handle it is given. *)
Theorem getUserByTwitterHandle_exact_match (this : MemStorage)
  (handle : string) :
  (forall u, getUserByTwitterHandle this handle = Some u ->
     prop u "twitterHandle" = VStr handle
     /\ exists before after,
          map_values (users this) = (before ++ u :: after)%list
          /\ forall x, x ∈ before -> prop x "twitterHandle" <> VStr handle)
  /\ (getUserByTwitterHandle this handle = None <->
      forall x, x ∈ map_values (users this) ->
                prop x "twitterHandle" <> VStr handle)
  /\ (forall u, getUserByTwitterHandle this ("@" ++ handle) = Some u ->
                prop u "twitterHandle" <> VStr handle)
  /\ strip_leading_at ("@" ++ handle) = strip_leading_at handle
  /\ (forall (D : Type) (api : CommunityArchiveAPI) (w : World D)
             (limit : option Z) (fx : Effects),
        exists rest,
          console (snd (getRecentPopularTweets api w ("@" ++ handle) limit fx))
          = (console fx
             ++ console_line ("Attempting to fetch tweets for handle: "
                              ++ strip_leading_at handle) archive_source
             :: rest)%list).
Proof.
  unfold getUserByTwitterHandle. repeat split.
  - apply find_first in H as [H _]. by apply strict_equals_string_true.
  - apply find_first in H as (_ & before & after & Heq & Hb).
    exists before, after. split; [done|]. intros x Hx.
    apply strict_equals_string_false. auto.
  - intros H x Hx. apply strict_equals_string_false.
    revert x Hx. by apply find_None_iff.
  - intros H. apply find_None_iff. intros x Hx.
    apply strict_equals_string_false. auto.
  - intros u H. apply find_first in H as [H _].
    apply strict_equals_string_true in H. rewrite H. simpl.
    intros [= Heq]. by apply at_prefix_differs in Heq.
  - intros D api w limit fx.
    apply (getRecentPopularTweets_logs_clean_handle api w ("@" ++ handle)).
Qed.

Lemma getUserByTwitterHandle_exact_match_witness :
  let alice : Obj := <["username" := VStr "a"]> {["twitterHandle" := VStr "alice"]} in
  let r := createUser MemStorage_new alice in
  getUserByTwitterHandle (snd r) "alice" = Some (fst r)
  /\ prop (fst r) "twitterHandle" = VStr "alice"
  /\ getUserByTwitterHandle (snd r) "@alice" = None
  /\ strip_leading_at "@alice" = "alice".
Proof.
  intros alice r.
  destruct (getUserByTwitterHandle_exact_match (snd r) "alice")
    as (Hsome & _ & _ & Hstrip & _).
  destruct (getUserByTwitterHandle_exact_match (snd r) "@alice")
    as (_ & Hnone & _).
  assert (Hfound : getUserByTwitterHandle (snd r) "alice" = Some (fst r))
    by (vm_compute; reflexivity).
  split; [exact Hfound|]. split; [exact (proj1 (Hsome _ Hfound))|].
  split; [|exact Hstrip].
  apply Hnone. intros x Hx. apply list_elem_of_In in Hx. simpl in Hx.
  destruct Hx as [<- | []]. vm_compute. discriminate.
Defined.

(** ** The regular expression *)

Lemma upto_last_close_None (s : string) :
  upto_last_close s = None <-> has_char close_brace s = false.
Proof.
  induction s as [|c r IH]; simpl; [done|].
  destruct (upto_last_close r) as [u|].
  - split; [done|]. intros H. apply orb_false_iff in H as [_ H].
    apply IH in H. discriminate.
  - destruct (Ascii.eqb c close_brace); simpl; [done|].
    split; [intros _; by apply IH | done].
Qed.

Lemma upto_last_close_Some (s u : string) :
  upto_last_close s = Some u ->
  exists body post,
    u = body ++ "}" /\ s = u ++ post /\ has_char close_brace post = false.
Proof.
  revert u. induction s as [|c r IH]; simpl; intros u; [done|].
  destruct (upto_last_close r) as [u'|] eqn:E.
  - intros [= <-]. destruct (IH u' eq_refl) as (body & post & -> & -> & Hp).
    exists (String c body), post. done.
  - destruct (Ascii.eqb_spec c close_brace) as [->|]; [|done].
    intros [= <-]. exists EmptyString, r. repeat split.
    by apply upto_last_close_None.
Qed.

(** A match is the span from the first opening brace to the last closing
    brace. *)
Lemma match_json_Some (s m : string) :
  match_json s = Some m ->
  exists pre body post,
    m = "{" ++ body ++ "}"
    /\ s = pre ++ m ++ post
    /\ has_char open_brace pre = false
    /\ has_char close_brace post = false.
Proof.
  revert m. induction s as [|c r IH]; simpl; intros m; [done|].
  destruct (Ascii.eqb_spec c open_brace) as [->|Hc].
  - destruct (upto_last_close r) as [u|] eqn:E; [|done].
    intros [= <-]. apply upto_last_close_Some in E as (body & post & -> & -> & Hp).
    exists EmptyString, body, post. done.
  - intros H. destruct (IH m H) as (pre & body & post & -> & -> & Hpre & Hpost).
    exists (String c pre), body, post. repeat split; try done.
    simpl. apply orb_false_iff. split; [|done]. by apply Ascii.eqb_neq.
Qed.

Lemma has_char_app (c : ascii) (s t : string) :
  has_char c (s ++ t) = has_char c s || has_char c t.
Proof.
  induction s as [|a r IH]; simpl; [done|]. by rewrite IH, orb_assoc.
Qed.

(** There is no match exactly when no opening brace has a closing brace
    after it. *)
Lemma match_json_None (s : string) :
  match_json s = None <->
  forall pre post, s = pre ++ String open_brace post ->
                   has_char close_brace post = false.
Proof.
  induction s as [|c r IH]; simpl.
  - split; [|done]. intros _ [|a pre] post H; discriminate.
  - destruct (Ascii.eqb_spec c open_brace) as [->|Hc].
    + destruct (upto_last_close r) as [u|] eqn:E.
      * split; [done|]. intros H. specialize (H EmptyString r eq_refl).
        apply upto_last_close_None in H. congruence.
      * split; [|done]. intros _ pre post H.
        apply upto_last_close_None in E.
        destruct pre as [|a pre]; simpl in H.
        -- injection H as <-. done.
        -- injection H as _ ->. rewrite has_char_app in E.
           apply orb_false_iff in E as [_ E]. simpl in E. exact E.
    + rewrite IH. split.
      * intros H pre post Heq. destruct pre as [|a pre]; simpl in Heq.
        -- injection Heq as -> _. done.
        -- injection Heq as _ ->. by apply (H pre).
      * intros H pre post ->. by apply (H (String c pre)).
Qed.

Example match_json_greedy :
  match_json "a {b} c {d} e" = Some "{b} c {d}"
  /\ match_json "} no { match" = None
  /\ match_json "{" = None.
Proof. repeat split. Qed.

(** ** The operations at work *)

(** A response whose object has a description and no topics. *)
Example generateInsights_description_only :
  generateInsights (answering (Some "key") ("Here it is: " ++ description_only))
    "tweets" no_effects
  = (Ok (mkInsights (JString "d") []),
     mkEffects
       ["[gemini] Generating insights from tweet history";
        "[gemini] Making request to https://generativelanguage.googleapis.com/v1beta/models/gemini-1.5-pro:generateContent";
        "[gemini] Successfully received response from Gemini API";
        "[gemini] Raw Gemini response: Here it is: " ++ description_only ++ "..."]
       [insights_request (Some "key") (insights_prompt "tweets")]).
Proof. vm_compute. reflexivity. Qed.

(** A non-success status ends in the fallback of the outer [catch]. *)
Example generateInsights_status_500 :
  let w : World GeminiResponse :=
    mkWorld GeminiResponse (Some "key") None None
      (fun _ => Ok (mkResponse false 500 "Internal Server Error" (Ok "boom")
                      (Throw (SyntaxError "Unexpected token b in JSON at position 0"))))
      JSON_parse_table Ok
      (fun _ => Throw (mkError "ZodError" "Expected array, received object"))
      read_typed in
  generateInsights w "tweets" no_effects
  = (Ok fallback_unavailable,
     mkEffects
       ["[gemini] Generating insights from tweet history";
        "[gemini] Making request to https://generativelanguage.googleapis.com/v1beta/models/gemini-1.5-pro:generateContent";
        "[gemini] Gemini API request failed with status 500: boom";
        "[gemini] Error in Gemini API call: Error: Gemini API request failed: 500 boom"]
       [insights_request (Some "key") (insights_prompt "tweets")]).
Proof. vm_compute. reflexivity. Qed.

(** Two handles, one request: only the console tells them apart. *)
Example getRecentPopularTweets_two_handles :
  let api := mkArchive "https://archive.example" in
  let w := archive_answering [sample_tweet] in
  let request :=
    mkRequest
      "https://archive.example/rest/v1/tweets?select=*&order=favorite_count.desc&limit=25"
      "GET"
      [("Accept", "application/json"); ("Content-Type", "application/json");
       ("apikey", "sk"); ("Authorization", "Bearer sk")]
      None in
  getRecentPopularTweets api w "@@alice" None no_effects
  = (Ok [sample_tweet],
     mkEffects
       ["[community-archive] Attempting to fetch tweets for handle: alice";
        "[community-archive] Successfully fetched tweets for alice"]
       [request])
  /\ getRecentPopularTweets api w "bob" None no_effects
     = (Ok [sample_tweet],
        mkEffects
          ["[community-archive] Attempting to fetch tweets for handle: bob";
           "[community-archive] Successfully fetched tweets for bob"]
          [request]).
Proof. split; vm_compute; reflexivity. Qed.

(** The rows of the comparison of two users, in insertion order. *)
Example getComparisonsByUser_either_side :
  let c12 : Obj := <["userAId" := VNum 1]> {["userBId" := VNum 2]} in
  let c31 : Obj := <["userAId" := VNum 3]> {["userBId" := VNum 1]} in
  let c23 : Obj := <["userAId" := VNum 2]> {["userBId" := VNum 3]} in
  let s := run MemStorage_new
             [CreateComparison 10 c12; CreateComparison 20 c31;
              CreateComparison 30 c23] in
  map (fun c => prop c "id") (getComparisonsByUser s 1) = [VNum 1; VNum 2]
  /\ map (fun c => prop c "createdAt") (getComparisonsByUser s 1)
     = [VDate 10; VDate 20].
Proof. split; vm_compute; reflexivity. Qed.

(** * Further properties *)

(** ** The repository over whole runs *)

Lemma map_set_same {V : Type} (m : JSMap V) (k : Z) (v : V) :
  map_get m k = Some v -> map_set m k v = m.
Proof.
  induction m as [|[k' v'] r IH]; simpl; [done|].
  destruct (Z.eqb_spec k' k) as [->|Hk].
  - by intros [= ->].
  - intros H. by rewrite IH.
Qed.

Lemma map_set_set {V : Type} (m : JSMap V) (k : Z) (v v' : V) :
  map_set (map_set m k v) k v' = map_set m k v'.
Proof.
  induction m as [|[k0 v0] r IH]; simpl.
  - by rewrite Z.eqb_refl.
  - destruct (Z.eqb_spec k0 k) as [->|Hk]; simpl.
    + by rewrite Z.eqb_refl.
    + destruct (Z.eqb_spec k0 k); [done|]. by rewrite IH.
Qed.

Lemma counters_of_run (cs : list Call) (this : MemStorage) :
  user (currentIds (run this cs))
  = user (currentIds this) + count_calls is_CreateUser cs
  /\ insight (currentIds (run this cs))
     = insight (currentIds this) + count_calls is_CreateInsight cs
  /\ comparison (currentIds (run this cs))
     = comparison (currentIds this) + count_calls is_CreateComparison cs.
Proof.
  unfold count_calls. revert this.
  induction cs as [|c cs IH]; intros this; simpl; [lia|].
  destruct (IH (perform this c)) as (Hu & Hi & Hc).
  unfold run in *. rewrite Hu, Hi, Hc.
  destruct c as [p|p|id p|now p]; simpl; try lia.
  unfold updateInsight. destruct (map_get (insights this) id); simpl; lia.
Qed.

(** X1. Starting from the empty repository, after any sequence of calls
    with any payloads, each counter is one more than the number of creations
    of its kind, each map has one entry per creation, and the keys of each
    map are 1, 2, ..., n in the order of creation. *)
Theorem run_issues_consecutive_keys (cs : list Call) :
  let s := run MemStorage_new cs in
  let nu := count_calls is_CreateUser cs in
  let ni := count_calls is_CreateInsight cs in
  let nc := count_calls is_CreateComparison cs in
  (user (currentIds s) = 1 + nu /\ map_keys (users s) = issued (1 + nu)
   /\ Z.of_nat (length (users s)) = nu)
  /\ (insight (currentIds s) = 1 + ni /\ map_keys (insights s) = issued (1 + ni)
      /\ Z.of_nat (length (insights s)) = ni)
  /\ (comparison (currentIds s) = 1 + nc
      /\ map_keys (comparisons s) = issued (1 + nc)
      /\ Z.of_nat (length (comparisons s)) = nc).
Proof.
  simpl.
  destruct (counters_ok_run cs _ counters_ok_new)
    as ((_ & Ku) & (_ & Ki) & (_ & Kc)).
  destruct (counters_of_run cs MemStorage_new) as (Hu & Hi & Hc).
  simpl in Hu, Hi, Hc.
  assert (Hlen : forall (m : JSMap Obj) n,
             0 <= n -> map_keys m = issued (1 + n) -> Z.of_nat (length m) = n).
  { intros m n Hn Hk. apply (f_equal length) in Hk. unfold map_keys, issued in Hk.
    rewrite !length_map, length_seq in Hk. lia. }
  unfold count_calls in *.
  rewrite <- Hu, <- Hi, <- Hc. repeat split; try done.
  - apply Hlen; [lia|]. by rewrite <- Hu.
  - apply Hlen; [lia|]. by rewrite <- Hi.
  - apply Hlen; [lia|]. by rewrite <- Hc.
Qed.

(** X2. Starting from the empty repository, after any sequence of calls,
    [getUser(k)] and [getComparison(k)] find a record exactly when [k] is one
    of the ids issued so far: an integer from 1 to the number of creations
    of that kind. *)
Theorem lookup_hits_exactly_issued_ids (cs : list Call) (k : Z) :
  let s := run MemStorage_new cs in
  (is_Some (getUser s k) <-> 1 <= k <= count_calls is_CreateUser cs)
  /\ (is_Some (getComparison s k)
      <-> 1 <= k <= count_calls is_CreateComparison cs).
Proof.
  simpl.
  destruct (counters_ok_run cs _ counters_ok_new)
    as ((_ & Ku) & _ & (_ & Kc)).
  destruct (counters_of_run cs MemStorage_new) as (Hu & _ & Hc).
  simpl in Hu, Hc. unfold getUser, getComparison.
  assert (Hget : forall (m : JSMap Obj) next,
             map_keys m = issued next ->
             (is_Some (map_get m k) <-> 1 <= k < next)).
  { intros m next Hk. rewrite <- elem_of_issued, <- Hk.
    destruct (map_get m k) as [v|] eqn:E.
    - split; [intros _ | eauto].
      destruct (decide (k ∈ map_keys m)) as [|Hn]; [done|].
      apply map_get_None in Hn. congruence.
    - split; [by intros [? ?]|]. intros Hin.
      by apply map_get_None in E. }
  rewrite (Hget _ _ Ku), (Hget _ _ Kc), Hu, Hc. lia.
Qed.

Lemma ids_are_keys_list (m : JSMap Obj) :
  ids_are_keys m ->
  map (fun o => prop o "id") (map_values m) = map VNum (map_keys m).
Proof.
  unfold ids_are_keys, map_values, map_keys.
  induction 1 as [|[k o] r Hh Hr IH]; simpl; [done|].
  simpl in Hh. by rewrite Hh, IH.
Qed.

(** X3. Starting from the empty repository, when no call of the sequence
    passes an [id] property, the ids carried by the stored users are
    1, 2, ..., n in the order of creation, n being the number of
    [createUser] calls, and likewise for insights and comparisons: record
    ids are unique and each equals the key the record is stored under. *)
Theorem record_ids_without_payload_ids (cs : list Call) :
  Forall carries_no_id cs ->
  let s := run MemStorage_new cs in
  map (fun o => prop o "id") (map_values (users s))
  = map VNum (issued (1 + count_calls is_CreateUser cs))
  /\ map (fun o => prop o "id") (map_values (insights s))
     = map VNum (issued (1 + count_calls is_CreateInsight cs))
  /\ map (fun o => prop o "id") (map_values (comparisons s))
     = map VNum (issued (1 + count_calls is_CreateComparison cs)).
Proof.
  intros Hcs. simpl.
  destruct (ids_of_run_without_payload_ids cs Hcs)
    as ((Hu & Ku) & (Hi & Ki) & (Hc & Kc)).
  destruct (counters_of_run cs MemStorage_new) as (Cu & Ci & Cc).
  simpl in Cu, Ci, Cc.
  rewrite !ids_are_keys_list by done.
  rewrite Ku, Ki, Kc, Cu, Ci, Cc. done.
Qed.

Lemma record_ids_without_payload_ids_witness :
  let cs := [CreateUser {["username" := VStr "a"]};
             CreateInsight {["userId" := VNum 1]};
             UpdateInsight 1 {["description" := VStr "d"]};
             CreateUser {["username" := VStr "b"]}] in
  map (fun o => prop o "id") (map_values (users (run MemStorage_new cs)))
  = [VNum 1; VNum 2]
  /\ map (fun o => prop o "id") (map_values (insights (run MemStorage_new cs)))
     = [VNum 1].
Proof.
  intros cs.
  destruct (record_ids_without_payload_ids cs) as (Hu & Hi & _).
  - repeat constructor.
  - split; [exact Hu | exact Hi].
Defined.

Lemma key_in_use_below_counter (m : JSMap Obj) (next k : Z) (o : Obj) :
  map_keys m = issued next -> map_get m k = Some o -> k <> next.
Proof.
  intros Hk Hg ->. rewrite (fresh_key _ _ Hk) in Hg. discriminate.
Qed.

Lemma records_kept_by_perform (this : MemStorage) (c : Call) (k : Z) :
  counters_ok this ->
  (forall u, getUser this k = Some u -> getUser (perform this c) k = Some u)
  /\ (forall x, getComparison this k = Some x ->
                getComparison (perform this c) k = Some x).
Proof.
  intros ((_ & Ku) & _ & (_ & Kc)). unfold getUser, getComparison.
  destruct c as [p|p|id p|now p]; simpl; split; intros o Ho; try done.
  - rewrite map_get_set_ne; [done|].
    intros Heq. by apply (key_in_use_below_counter _ _ _ _ Ku Ho).
  - unfold updateInsight. by destruct (map_get (insights this) id).
  - unfold updateInsight. by destruct (map_get (insights this) id).
  - rewrite map_get_set_ne; [done|].
    intros Heq. by apply (key_in_use_below_counter _ _ _ _ Kc Ho).
Qed.

(** X4. Users and comparisons are never lost, replaced or altered: in a
    repository whose counters agree with its maps, a record found under a key
    is found there, unchanged, after any further sequence of calls. *)
Theorem users_and_comparisons_are_immutable (this : MemStorage)
  (cs : list Call) (k : Z) :
  counters_ok this ->
  (forall u, getUser this k = Some u -> getUser (run this cs) k = Some u)
  /\ (forall x, getComparison this k = Some x ->
                getComparison (run this cs) k = Some x).
Proof.
  revert this. induction cs as [|c cs IH]; intros this Hok; simpl; [done|].
  destruct (records_kept_by_perform this c k Hok) as [Hu Hc].
  destruct (IH (perform this c) (counters_ok_perform _ _ Hok)) as [IHu IHc].
  split; eauto.
Qed.

Lemma users_and_comparisons_are_immutable_witness :
  let alice : Obj := {["twitterHandle" := VStr "alice"]} in
  let r := createUser MemStorage_new alice in
  let later := [CreateUser alice; CreateInsight {["userId" := VNum 1]};
                UpdateInsight 1 {["id" := VNum 9]};
                CreateComparison 5 {["userAId" := VNum 1]}] in
  getUser (run (snd r) later) 1 = Some (fst r).
Proof.
  intros alice r later.
  refine (proj1 (users_and_comparisons_are_immutable (snd r) later 1 _) _ _).
  - apply (counters_ok_perform MemStorage_new (CreateUser alice)).
    apply counters_ok_new.
  - reflexivity.
Defined.




(** ** [updateInsight] as an action on the repository *)

Lemma storage_eta (this : MemStorage) :
  mkStorage (users this) (insights this) (comparisons this) (currentIds this)
  = this.
Proof. by destruct this. Qed.

(** X6. An update with no properties changes nothing: when an insight is
    stored under [id], [updateInsight(id, {})] returns that insight and
    leaves the repository exactly as it was. *)
Theorem updateInsight_empty_update (this : MemStorage) (id : Z)
  (existing : Obj) :
  map_get (insights this) id = Some existing ->
  updateInsight this id ∅ = (Ok existing, this).
Proof.
  intros H. unfold updateInsight, spread. rewrite H.
  rewrite (left_id_L ∅ (∪)). rewrite (map_set_same _ _ _ H).
  by rewrite storage_eta.
Qed.

Lemma updateInsight_empty_update_witness :
  let p : Obj := <["userId" := VNum 5]> {["description" := VStr "d"]} in
  let r := createInsight MemStorage_new p in
  updateInsight (snd r) 1 ∅ = (Ok (fst r), snd r).
Proof.
  intros p r. apply (updateInsight_empty_update (snd r) 1 (fst r)).
  reflexivity.
Defined.

(** X7. Two updates of the same key in a row amount to one update with the
    two sets of properties merged, the later one winning; this holds as well
    when nothing is stored under the key, where all three calls throw and
    change nothing. *)
Theorem updateInsight_twice (this : MemStorage) (id : Z) (u1 u2 : Obj) :
  updateInsight (snd (updateInsight this id u1)) id u2
  = updateInsight this id (spread u1 u2).
Proof.
  unfold updateInsight at 2 3.
  destruct (map_get (insights this) id) as [existing|] eqn:E; simpl.
  - unfold updateInsight. simpl. rewrite map_get_set_eq, map_set_set.
    unfold spread. by rewrite (assoc_L (∪)).
  - unfold updateInsight. by rewrite E.
Qed.

(** ** [getComparisonsByUser] *)

(** X8. In a repository whose counters agree with its maps, creating a
    comparison adds the new record at the end of the list
    [getComparisonsByUser] returns for a user id that is the payload's
    [userAId] or [userBId], and leaves the list of every other user id as it
    was. *)
Theorem getComparisonsByUser_after_create (this : MemStorage) (now : Z)
  (p : Obj) (userId : Z) :
  counters_ok this ->
  let r := createComparison this now p in
  getComparisonsByUser (snd r) userId
  = (getComparisonsByUser this userId
     ++ (if strict_equals_number (prop p "userAId") userId
            || strict_equals_number (prop p "userBId") userId
         then [fst r] else []))%list.
Proof.
  intros (_ & _ & (H1 & Hk)). unfold getComparisonsByUser. simpl.
  destruct (keys_after_create _ _
              (<["createdAt" := VDate now]>
                 (spread {["id" := VNum (comparison (currentIds this))]} p))
              H1 Hk) as [-> _].
  unfold map_values. rewrite map_app, List.filter_app. f_equal. simpl.
  assert (Hprop : forall k, k <> "id" -> k <> "createdAt" ->
            prop (<["createdAt" := VDate now]>
                    (spread {["id" := VNum (comparison (currentIds this))]} p)) k
            = prop p k).
  { intros k Hid Hc. unfold prop. rewrite lookup_insert_ne by done.
    fold (prop (spread {["id" := VNum (comparison (currentIds this))]} p) k).
    fold (prop p k). by apply created_prop_other. }
  rewrite !Hprop by done. reflexivity.
Qed.

Lemma getComparisonsByUser_after_create_witness :
  let p : Obj := <["userAId" := VNum 1]> {["userBId" := VNum 2]} in
  let r := createComparison MemStorage_new 10 p in
  getComparisonsByUser (snd r) 2 = [fst r]
  /\ getComparisonsByUser (snd r) 3 = [].
Proof.
  intros p r. split.
  - apply (getComparisonsByUser_after_create MemStorage_new 10 p 2).
    apply counters_ok_new.
  - apply (getComparisonsByUser_after_create MemStorage_new 10 p 3).
    apply counters_ok_new.
Defined.

(** ** The two regular expressions *)

Lemma upto_last_close_complete (body post : string) :
  has_char close_brace post = false ->
  upto_last_close (body ++ "}" ++ post) = Some (body ++ "}").
Proof.
  intros Hp. apply upto_last_close_None in Hp.
  induction body as [|c r IH].
  - change (upto_last_close (String close_brace post)
            = Some (String close_brace EmptyString)).
    cbn [upto_last_close]. rewrite Hp. reflexivity.
  - change (upto_last_close (String c (r ++ "}" ++ post))
            = Some (String c (r ++ "}"))).
    cbn [upto_last_close]. by rewrite IH.
Qed.

Lemma string_app_assoc (s t u : string) : (s ++ t) ++ u = s ++ t ++ u.
Proof.
  induction s as [|c r IH]; [done|].
  change (String c ((r ++ t) ++ u) = String c (r ++ t ++ u)). by rewrite IH.
Qed.

Lemma string_app_nil_r (s : string) : s ++ EmptyString = s.
Proof.
  induction s as [|c r IH]; [done|].
  change (String c (r ++ EmptyString) = String c r). by rewrite IH.
Qed.

Lemma match_json_complete (pre body post : string) :
  has_char open_brace pre = false ->
  has_char close_brace post = false ->
  match_json (pre ++ ("{" ++ body ++ "}") ++ post)
  = Some ("{" ++ body ++ "}").
Proof.
  intros Hpre Hpost. induction pre as [|c r IH].
  - rewrite !string_app_assoc.
    change (match_json (String open_brace (body ++ "}" ++ post))
            = Some (String open_brace (body ++ "}"))).
    cbn [match_json]. rewrite Ascii.eqb_refl.
    by rewrite upto_last_close_complete.
  - simpl in Hpre. apply orb_false_iff in Hpre as [Hc Hr].
    change (match_json (String c (r ++ ("{" ++ body ++ "}") ++ post))
            = Some ("{" ++ body ++ "}")).
    cbn [match_json]. rewrite Hc. by apply IH.
Qed.

(** X9. [text.match(/\{[\s\S]*\}/)] finds [m] exactly when [m] is the part
    of the text from its first opening brace to its last closing brace:
    [m] begins with an opening brace and ends with a closing brace, no
    opening brace comes before it and no closing brace after it. *)
Theorem match_json_first_open_to_last_close (s m : string) :
  match_json s = Some m <->
  exists pre body post,
    m = "{" ++ body ++ "}"
    /\ s = pre ++ m ++ post
    /\ has_char open_brace pre = false
    /\ has_char close_brace post = false.
Proof.
  split.
  - revert m. induction s as [|c r IH]; simpl; intros m; [done|].
    destruct (Ascii.eqb_spec c open_brace) as [->|Hc].
    + destruct (upto_last_close r) as [u|] eqn:E; [|done].
      intros [= <-].
      apply upto_last_close_Some in E as (body & post & -> & -> & Hp).
      exists EmptyString, body, post. done.
    + intros H.
      destruct (IH m H) as (pre & body & post & -> & -> & Hpre & Hpost).
      exists (String c pre), body, post. repeat split; try done.
      simpl. apply orb_false_iff. split; [|done]. by apply Ascii.eqb_neq.
  - intros (pre & body & post & -> & -> & Hpre & Hpost).
    by apply match_json_complete.
Qed.

(** X10. What the regular expression finds is stable: matching the match
    again returns it unchanged. *)
Theorem match_json_idempotent (s m : string) :
  match_json s = Some m -> match_json m = Some m.
Proof.
  intros H. apply match_json_Some in H as (pre & body & post & -> & _).
  pose proof (match_json_complete EmptyString body EmptyString eq_refl eq_refl)
    as Hc.
  by rewrite string_app_nil_r in Hc.
Qed.

Lemma match_json_idempotent_witness :
  match_json "{b} c {d}" = Some "{b} c {d}".
Proof.
  apply (match_json_idempotent "a {b} c {d} e" "{b} c {d}"). reflexivity.
Defined.

(** X11. [handle.replace(/^@+/, '')] removes a prefix made of [@] signs
    only, what is left does not begin with [@], and removing again changes
    nothing. *)
Theorem strip_leading_at_prefix (handle : string) :
  (exists pre,
     handle = pre ++ strip_leading_at handle
     /\ forall c, has_char c pre = true -> c = "@"%char)
  /\ (forall rest, strip_leading_at handle <> String "@"%char rest)
  /\ strip_leading_at (strip_leading_at handle) = strip_leading_at handle.
Proof.
  induction handle as [|a r (( pre & Hpre & Hats) & Hhead & Hidem)].
  - repeat split; try done. exists EmptyString. split; [done|]. done.
  - simpl. destruct (Ascii.eqb_spec a "@"%char) as [->|Ha].
    + repeat split; try done.
      exists (String "@"%char pre). split.
      * change (String "@"%char r
                = String "@"%char (pre ++ strip_leading_at r)).
        by rewrite <- Hpre.
      * intros c. simpl. intros H. apply orb_true_iff in H as [H|H]; [|auto].
        symmetry. by apply Ascii.eqb_eq.
    + repeat split.
      * exists EmptyString. split; [done|]. done.
      * intros rest [= -> _]. done.
      * simpl. by destruct (Ascii.eqb_spec a "@"%char).
Qed.

(** ** [generateText] *)

Ltac split_matches :=
  repeat (match goal with
          | |- context [match ?x with _ => _ end] => destruct x eqn:?; simpl
          end).

(** X12. [generateText] resolves to [t] exactly when the key is set, the
    request is answered with a success status, the body is JSON that the
    response schema accepts, and [t] is the text of the first part of the
    first candidate. *)
Theorem generateText_resolves_iff {D : Type} (w : World D) (prompt : string)
  (options : GeminiRequestOptions) (fx : Effects) (t : string) :
  fst (generateText w prompt options fx) = Ok t <->
  unset (GEMINI_API_KEY w) = false
  /\ exists response data parsed candidate cs part ps,
       fetch_outcome w (text_request (GEMINI_API_KEY w) prompt options)
       = Ok response
       /\ ok response = true
       /\ response_json response = Ok data
       /\ GeminiResponseSchema_parse w data = Ok parsed
       /\ candidates parsed = candidate :: cs
       /\ parts (content candidate) = part :: ps
       /\ t = text part.
Proof.
  unfold generateText. split.
  - destruct (unset (GEMINI_API_KEY w)) eqn:Hkey; [done|]. run_comp.
    destruct (fetch_outcome w (text_request (GEMINI_API_KEY w) prompt options))
      as [response|e] eqn:Hf; [|done].
    destruct (ok response) eqn:Hok; simpl.
    + destruct (response_json response) as [data|e] eqn:Hj; [|done].
      destruct (GeminiResponseSchema_parse w data) as [parsed|e] eqn:Hp; [|done].
      destruct (candidates parsed) as [|candidate cs] eqn:Hc; [done|].
      destruct (parts (content candidate)) as [|part ps] eqn:Hps; [done|].
      simpl. intros [= <-]. split; [done|].
      exists response, data, parsed, candidate, cs, part, ps. done.
    + destruct (response_text response); done.
  - intros (Hkey & response & data & parsed & candidate & cs & part & ps
            & Hf & Hok & Hj & Hp & Hc & Hps & ->).
    rewrite Hkey. run_comp. rewrite Hf, Hok. simpl.
    rewrite Hj, Hp, Hc, Hps. reflexivity.
Qed.

(** X13. The errors of [generateText], with the key set: a network failure,
    an unreadable body and a schema violation are rethrown as they are; a
    non-success status gives [Error("Gemini API error: <status>")]; a
    response without candidate, or whose first candidate has no part, gives
    [Error("No content in the response")]. Each is logged once, as the last
    console line. *)
Theorem generateText_errors {D : Type} (w : World D) (prompt : string)
  (options : GeminiRequestOptions) (fx : Effects) :
  unset (GEMINI_API_KEY w) = false ->
  let outcome :=
    fetch_outcome w (text_request (GEMINI_API_KEY w) prompt options) in
  let run := generateText w prompt options fx in
  let logged e :=
    exists lines,
      console (snd run)
      = (lines ++ [console_line ("Error generating text with Gemini: "
                                 ++ Error_toString e) gemini_source])%list in
  (forall e, outcome = Throw e -> fst run = Throw e /\ logged e)
  /\ (forall response errorText,
        outcome = Ok response -> ok response = false ->
        response_text response = Ok errorText ->
        let e := Error ("Gemini API error: "
                        ++ Number_toString (status response)) in
        fst run = Throw e /\ logged e)
  /\ (forall response e,
        outcome = Ok response -> ok response = true ->
        response_json response = Throw e ->
        fst run = Throw e /\ logged e)
  /\ (forall response data e,
        outcome = Ok response -> ok response = true ->
        response_json response = Ok data ->
        GeminiResponseSchema_parse w data = Throw e ->
        fst run = Throw e /\ logged e)
  /\ (forall response data parsed,
        outcome = Ok response -> ok response = true ->
        response_json response = Ok data ->
        GeminiResponseSchema_parse w data = Ok parsed ->
        candidates parsed = []
        \/ (exists candidate cs, candidates parsed = candidate :: cs
                                 /\ parts (content candidate) = []) ->
        let e := Error "No content in the response" in
        fst run = Throw e /\ logged e).
Proof.
  intros Hkey outcome run logged. subst run logged outcome.
  unfold generateText. rewrite Hkey. run_comp. repeat split.
  - rewrite H. reflexivity.
  - rewrite H. simpl. eexists. reflexivity.
  - rewrite H, H0. simpl. rewrite H1. reflexivity.
  - rewrite H, H0. simpl. rewrite H1. simpl. eexists. reflexivity.
  - rewrite H, H0. simpl. rewrite H1. reflexivity.
  - rewrite H, H0. simpl. rewrite H1. simpl. eexists. reflexivity.
  - rewrite H, H0. simpl. rewrite H1, H2. reflexivity.
  - rewrite H, H0. simpl. rewrite H1, H2. simpl. eexists. reflexivity.
  - rewrite H, H0. simpl. rewrite H1, H2.
    destruct H3 as [-> | (c & cs & -> & ->)]; reflexivity.
  - rewrite H, H0. simpl. rewrite H1, H2.
    destruct H3 as [-> | (c & cs & -> & ->)]; simpl; eexists; reflexivity.
Qed.

Lemma generateText_errors_witness :
  let w : World GeminiResponse :=
    mkWorld GeminiResponse (Some "key") None None
      (fun _ => Ok (mkResponse false 503 "Service Unavailable" (Ok "down")
                      (Throw (SyntaxError "Unexpected token d in JSON at position 0"))))
      JSON_parse_table Ok
      (fun _ => Throw (mkError "ZodError" "Expected array, received object"))
      read_typed in
  fst (generateText w "hello" translation_options no_effects)
  = Throw (Error "Gemini API error: 503").
Proof.
  intros w.
  destruct (generateText_errors w "hello" translation_options no_effects eq_refl)
    as (_ & Hstatus & _).
  exact (proj1 (Hstatus _ "down" eq_refl eq_refl eq_refl)).
Defined.

(** ** Requests *)

Lemma parse_insights_requests {D : Type} (w : World D) (data : D)
  (fx : Effects) :
  requests (snd (parse_insights w data fx)) = requests fx.
Proof.
  unfold parse_insights.
  destruct (read_text w data) as [|e|[|[| | |t| |]]]; run_comp; simpl; try done.
  destruct (match_json t) as [m|]; simpl; [|done].
  destruct (JSON_parse w m) as [j|e]; simpl; [|done].
  destruct (member j "description"); simpl; [|done].
  destruct (member j "topics"); done.
Qed.

(** X14. No retry and no request without a key: whatever the world answers,
    [generateText] and [generateInsights] send exactly one request when
    [GEMINI_API_KEY] is set, and none when it is not. *)
Theorem gemini_sends_one_request {D : Type} (w : World D)
  (prompt tweetHistory : string) (options : GeminiRequestOptions)
  (fx : Effects) :
  requests (snd (generateText w prompt options fx))
  = (requests fx
     ++ (if unset (GEMINI_API_KEY w) then []
         else [text_request (GEMINI_API_KEY w) prompt options]))%list
  /\ requests (snd (generateInsights w tweetHistory fx))
     = (requests fx
        ++ (if unset (GEMINI_API_KEY w) then []
            else [insights_request (GEMINI_API_KEY w)
                    (insights_prompt tweetHistory)]))%list.
Proof.
  split.
  - unfold generateText. destruct (unset (GEMINI_API_KEY w)).
    + simpl. by rewrite app_nil_r.
    + run_comp.
      destruct (fetch_outcome w (text_request (GEMINI_API_KEY w) prompt options))
        as [response|e]; [|done].
      destruct (ok response); simpl.
      * destruct (response_json response) as [data|e]; [|done].
        destruct (GeminiResponseSchema_parse w data) as [parsed|e]; [|done].
        destruct (candidates parsed) as [|candidate cs]; [done|].
        by destruct (parts (content candidate)).
      * by destruct (response_text response).
  - unfold generateInsights. destruct (unset (GEMINI_API_KEY w)).
    + simpl. by rewrite app_nil_r.
    + cbv beta iota zeta delta [bind try_catch await ret throw log fetch].
      destruct (fetch_outcome w
                  (insights_request (GEMINI_API_KEY w)
                     (insights_prompt tweetHistory))) as [response|e]; [|done].
      destruct (ok response); simpl.
      * destruct (response_json response) as [data|e]; [|done].
        match goal with
        | |- context [parse_insights w data ?f] =>
            pose proof (parse_insights_requests w data f) as Hr;
            destruct (parse_insights w data f) as [[r|e] fx']
        end; simpl in *; done.
      * by destruct (response_text response).
Qed.

(** ** [generateInsights], case by case *)

(** X15. With the key set and a readable success response, the pair
    [generateInsights] resolves to is decided by what it reads off the body:
    no candidate gives the two-topic fallback; a failing read, or a text that
    is not a string, gives the one-topic fallback of the inner [catch]. *)
Theorem generateInsights_unusable_body {D : Type} (w : World D)
  (tweetHistory : string) (fx : Effects) (response : Response D) (data : D) :
  unset (GEMINI_API_KEY w) = false ->
  fetch_outcome w (insights_request (GEMINI_API_KEY w)
                     (insights_prompt tweetHistory)) = Ok response ->
  ok response = true ->
  response_json response = Ok data ->
  let result := fst (generateInsights w tweetHistory fx) in
  (read_text w data = GuardFalsy -> result = Ok fallback_no_json)
  /\ (forall e, read_text w data = ReadThrows e ->
                result = Ok fallback_parse_error)
  /\ (forall v, read_text w data = TextContent v ->
                (forall t, v <> Defined (JString t)) ->
                result = Ok fallback_parse_error).
Proof.
  intros Hkey Hfetch Hok Hjson result. subst result.
  unfold generateInsights, parse_insights. rewrite Hkey. run_comp.
  rewrite Hfetch, Hok. simpl. rewrite Hjson. repeat split.
  - intros ->. reflexivity.
  - intros e ->. reflexivity.
  - intros v -> Hv. destruct v as [|[| | |t| |]]; try reflexivity.
    by destruct (Hv t).
Qed.

Lemma generateInsights_unusable_body_witness :
  let w : World GeminiResponse :=
    mkWorld GeminiResponse (Some "key") None None
      (fun _ => Ok (mkResponse true 200 "OK" (Ok "{}")
                      (Ok (mkGeminiResponse [mkCandidate (mkContent [])]))))
      JSON_parse_table Ok
      (fun _ => Throw (mkError "ZodError" "Expected array, received object"))
      read_typed in
  fst (generateInsights w "tweets" no_effects) = Ok fallback_parse_error.
Proof.
  intros w.
  destruct (generateInsights_unusable_body w "tweets" no_effects _ _
              eq_refl eq_refl eq_refl eq_refl) as (_ & Hthrows & _).
  exact (Hthrows _ eq_refl).
Defined.

(** X16. When the span found in the text parses to an object,
    [generateInsights] resolves to the object's [description], or to
    [AI couldn't generate a description] when that is missing or falsy, and
    to the object's [topics] when it is an array, or to no topic otherwise. *)
Theorem generateInsights_from_object {D : Type} (w : World D)
  (tweetHistory : string) (fx : Effects) (response : Response D) (data : D)
  (textContent jsonStr : string) (members : list (string * JSON)) :
  unset (GEMINI_API_KEY w) = false ->
  fetch_outcome w (insights_request (GEMINI_API_KEY w)
                     (insights_prompt tweetHistory)) = Ok response ->
  ok response = true ->
  response_json response = Ok data ->
  read_text w data = TextContent (Defined (JString textContent)) ->
  match_json textContent = Some jsonStr ->
  JSON_parse w jsonStr = Ok (JObject members) ->
  fst (generateInsights w tweetHistory fx)
  = Ok (mkInsights
          (or_else (last_member members "description")
                   (JString "AI couldn't generate a description"))
          (match last_member members "topics" with
           | Defined (JArray l) => l
           | _ => []
           end)).
Proof.
  intros Hkey Hfetch Hok Hjson Hread Hm Hp.
  unfold generateInsights, parse_insights. rewrite Hkey. run_comp.
  rewrite Hfetch, Hok. simpl. rewrite Hjson, Hread, Hm, Hp. reflexivity.
Qed.

Lemma generateInsights_from_object_witness :
  fst (generateInsights
         (answering (Some "key") ("Here it is: " ++ description_only))
         "tweets" no_effects)
  = Ok (mkInsights (JString "d") []).
Proof.
  exact (generateInsights_from_object
           (answering (Some "key") ("Here it is: " ++ description_only))
           "tweets" no_effects _ _ ("Here it is: " ++ description_only)
           description_only [("description", JString "d")]
           eq_refl eq_refl eq_refl eq_refl eq_refl eq_refl eq_refl).
Defined.

(** ** [explainArgument] and [translateBetweenFrames] *)


(** X18. [translateBetweenFrames] has no handler around [generateText]: a
    failure of [generateText] is its failure, with nothing more written to
    the console. When the span found in the text parses to an object, it
    resolves to the object's [sourceFrame], [targetFrame] and [translation]
    as they are, [undefined] for those the object lacks: the three fields are
    not validated. *)
Theorem translateBetweenFrames_outcomes {D : Type} (w : World D)
  (sourceText targetHandle : string) (fx fx' : Effects) :
  let text_run :=
    generateText w (translation_prompt sourceText targetHandle)
      translation_options fx in
  (forall e, text_run = (Throw e, fx') ->
             translateBetweenFrames w sourceText targetHandle fx
             = (Throw e, fx'))
  /\ (forall response jsonMatch members,
        text_run = (Ok response, fx') ->
        match_json response = Some jsonMatch ->
        JSON_parse w jsonMatch = Ok (JObject members) ->
        translateBetweenFrames w sourceText targetHandle fx
        = (Ok (mkTranslation (last_member members "sourceFrame")
                 (last_member members "targetFrame")
                 (last_member members "translation")), fx')).
Proof.
  simpl. split.
  - intros e H. unfold translateBetweenFrames.
    by rewrite (bind_Throw _ _ _ _ _ H).
  - intros response jsonMatch members H Hm Hp. unfold translateBetweenFrames.
    rewrite (bind_Ok _ _ _ _ _ H). run_comp. rewrite Hm, Hp. reflexivity.
Qed.

Lemma translateBetweenFrames_outcomes_witness :
  fst (translateBetweenFrames
         (answering (Some "key") ("Here it is: " ++ description_only))
         "source" "target" no_effects)
  = Ok (mkTranslation Undefined Undefined Undefined)
  /\ fst (translateBetweenFrames (answering None "anything") "source" "target"
            no_effects)
     = Throw (Error "GEMINI_API_KEY environment variable is not set").
Proof.
  split.
  - rewrite (proj2 (translateBetweenFrames_outcomes
                      (answering (Some "key") ("Here it is: " ++ description_only))
                      "source" "target" no_effects _)
               _ description_only [("description", JString "d")]
               eq_refl eq_refl eq_refl).
    reflexivity.
  - rewrite (proj1 (translateBetweenFrames_outcomes
                      (answering None "anything") "source" "target"
                      no_effects _) _ eq_refl).
    reflexivity.
Defined.

(** ** [getUserProfile] *)

Lemma split_on_cons (sep c : ascii) (s : string) :
  split_on sep (String c s)
  = if Ascii.eqb c sep then EmptyString :: split_on sep s
    else match split_on sep s with
         | word :: words => String c word :: words
         | [] => [String c EmptyString]
         end.
Proof. reflexivity. Qed.

Lemma split_on_nonempty (sep : ascii) (s : string) : split_on sep s <> [].
Proof.
  induction s as [|c r IH]; [done|]. rewrite split_on_cons.
  destruct (Ascii.eqb c sep); [done|]. by destruct (split_on sep r).
Qed.

(** X19. [s.split("'")] loses nothing: no piece contains the separator, and
    joining the pieces with the separator gives the string back. *)
Theorem split_on_join_with (sep : ascii) (s : string) :
  join_with sep (split_on sep s) = s
  /\ forall piece, piece ∈ split_on sep s -> has_char sep piece = false.
Proof.
  induction s as [|c r [IHj IHp]].
  - split; [done|]. intros piece Hp.
    apply list_elem_of_singleton in Hp as ->. done.
  - rewrite split_on_cons. pose proof (split_on_nonempty sep r) as Hne.
    destruct (Ascii.eqb_spec c sep) as [->|Hc].
    + split.
      * destruct (split_on sep r) as [|word words] eqn:E; [done|].
        change (String sep (join_with sep (word :: words)) = String sep r).
        by rewrite IHj.
      * intros piece Hp. apply elem_of_cons in Hp as [-> | Hp]; auto.
    + destruct (split_on sep r) as [|word words] eqn:E; [done|]. split.
      * rewrite <- IHj. destruct words as [|word' words']; reflexivity.
      * intros piece Hp. apply elem_of_cons in Hp as [-> | Hp].
        -- simpl. apply orb_false_iff. split.
           ++ by apply Ascii.eqb_neq.
           ++ apply IHp. apply list_elem_of_here.
        -- apply IHp. by apply list_elem_of_further.
Qed.








(** The outcome of [getRecentPopularTweets] is decided by the world alone. *)
Lemma getRecentPopularTweets_outcome {D : Type} (this : CommunityArchiveAPI)
  (w : World D) (handle handle' : string) (limit : option Z)
  (fx fx' : Effects) :
  fst (getRecentPopularTweets this w handle limit fx)
  = fst (getRecentPopularTweets this w handle' limit fx').
Proof.
  unfold getRecentPopularTweets. run_comp.
  destruct (fetch_outcome w
              (tweets_request this (SUPABASE_KEY w) (default 25 limit)))
    as [response|e]; simpl; [|done].
  destruct (ok response); simpl.
  - destruct (response_json response) as [data|e]; simpl; [|done].
    destruct (TweetArraySchema_parse w data); done.
  - destruct (response_text response); done.
Qed.

(** X21. [getUserProfile] ends as [getRecentPopularTweets] with the default
    limit ends: it rejects with the same error, or resolves to the tweets
    fetched together with the topics collected from them. As the request
    does not mention the handle, the profile is the same for every handle. *)
Theorem getUserProfile_outcome {D : Type} (this : CommunityArchiveAPI)
  (w : World D) (handle handle' : string) (fx : Effects) :
  fst (getUserProfile this w handle fx)
  = match fst (getRecentPopularTweets this w handle None fx) with
    | Ok tweets => Ok (mkProfile tweets (collect_topics tweets))
    | Throw e => Throw e
    end
  /\ fst (getUserProfile this w handle fx)
     = fst (getUserProfile this w handle' fx).
Proof.
  assert (H : forall h,
             fst (getUserProfile this w h fx)
             = match fst (getRecentPopularTweets this w handle None fx) with
               | Ok tweets => Ok (mkProfile tweets (collect_topics tweets))
               | Throw e => Throw e
               end).
  { intros h. unfold getUserProfile.
    cbv beta iota zeta delta [bind try_catch ret throw log].
    match goal with
    | |- context [getRecentPopularTweets this w ?h' None ?f] =>
        rewrite (getRecentPopularTweets_outcome this w handle h' None fx f);
        destruct (getRecentPopularTweets this w h' None f) as [[tweets|e] f']
    end; reflexivity. }
  split; [apply H|]. by rewrite !H.
Qed.

(** A failure of the archive is logged twice on its way out of
    [getUserProfile]: by [getRecentPopularTweets], then by [getUserProfile]. *)
Example getUserProfile_archive_down :
  let w : World (list Tweet) :=
    mkWorld (list Tweet) None (Some "sk") (Some "https://archive.example")
      (fun _ => Throw (TypeError "fetch failed"))
      JSON_parse_table
      (fun _ => Throw (mkError "ZodError" "Expected object, received array"))
      Ok (fun _ => GuardFalsy) in
  getUserProfile (mkArchive "https://archive.example") w "@alice" no_effects
  = (Throw (TypeError "fetch failed"),
     mkEffects
       ["[community-archive] Fetching profile data for: alice";
        "[community-archive] Attempting to fetch tweets for handle: alice";
        "[community-archive] Error in getRecentPopularTweets: TypeError: fetch failed";
        "[community-archive] Error getting user profile: TypeError: fetch failed"]
       [tweets_request (mkArchive "https://archive.example") (Some "sk") 25]).
Proof. vm_compute. reflexivity. Qed.

(** ** [POST /api/translate] *)

(** X22. The handler of [POST /api/translate] always answers, and never
    rejects. It answers 400, without any request or console line, when
    [sourceText] or [targetHandle] is missing or empty. Otherwise it answers
    404 when the archive request fails; and when that succeeds, 200 with the
    translation if [translateBetweenFrames] resolves, 500 with the error's
    message if it rejects. *)
Theorem post_translate_answers {D : Type} (api : CommunityArchiveAPI)
  (w : World D) (body : TranslateBody) (fx : Effects) :
  let sourceText := or_empty (body_sourceText body) in
  let targetHandle := or_empty (body_targetHandle body) in
  let archive := getRecentPopularTweets api w targetHandle None fx in
  (exists r, fst (post_translate api w body fx) = Ok r)
  /\ (unset (body_sourceText body) || unset (body_targetHandle body) = true ->
      post_translate api w body fx
      = (Ok (mkHttp 400
               (MessageJson "Source text and target handle are required")),
         fx))
  /\ (unset (body_sourceText body) || unset (body_targetHandle body) = false ->
      (forall e, fst archive = Throw e ->
         post_translate api w body fx
         = (Ok (mkHttp 404
                  (MessageJson ("Could not find Twitter profile for @"
                                ++ targetHandle))),
            snd archive))
      /\ (forall tweets, fst archive = Ok tweets ->
            fst (post_translate api w body fx)
            = match fst (translateBetweenFrames w sourceText targetHandle
                           (snd archive)) with
              | Ok result => Ok (mkHttp 200 (TranslationJson result))
              | Throw e => Ok (mkHttp 500 (MessageJson (err_message e)))
              end)).
Proof.
  simpl. split; [|split].
  - unfold post_translate. apply try_catch_resolves.
    intros e fx'. run_comp. simpl. eauto.
  - intros H. unfold post_translate. rewrite H. reflexivity.
  - intros H. unfold post_translate. rewrite H.
    cbv beta iota zeta delta [bind try_catch ret throw log].
    destruct (getRecentPopularTweets api w (or_empty (body_targetHandle body))
                None fx) as [[tweets|e] fx1]; simpl; split.
    + intros e. discriminate.
    + intros ? _.
      by destruct (translateBetweenFrames w (or_empty (body_sourceText body))
                     (or_empty (body_targetHandle body)) fx1) as [[r|e] fx2].
    + intros ? _. reflexivity.
    + intros ?. discriminate.
Qed.

Lemma post_translate_answers_witness :
  let api := mkArchive "https://archive.example" in
  post_translate api (archive_answering [sample_tweet])
    (mkTranslateBody (Some "hello") None) no_effects
  = (Ok (mkHttp 400 (MessageJson "Source text and target handle are required")),
     no_effects).
Proof.
  intros api.
  apply (proj1 (proj2 (post_translate_answers api
                         (archive_answering [sample_tweet])
                         (mkTranslateBody (Some "hello") None) no_effects))).
  reflexivity.
Defined.

(** X23. The check that the target profile exists does not look at the
    target: for a given source text, if the handler answers 404 for one
    non-empty target handle, it answers 404 for every non-empty target
    handle. *)
Theorem post_translate_404_for_all_handles {D : Type}
  (api : CommunityArchiveAPI) (w : World D) (sourceText : string)
  (handle handle' : string) (fx : Effects) (json : ResponseJson) :
  unset (Some sourceText) = false ->
  unset (Some handle) = false ->
  unset (Some handle') = false ->
  fst (post_translate api w
         (mkTranslateBody (Some sourceText) (Some handle)) fx)
  = Ok (mkHttp 404 json) ->
  fst (post_translate api w
         (mkTranslateBody (Some sourceText) (Some handle')) fx)
  = Ok (mkHttp 404
          (MessageJson ("Could not find Twitter profile for @" ++ handle'))).
Proof.
  intros Hs Hh Hh'. unfold post_translate. simpl body_sourceText.
  simpl body_targetHandle. rewrite Hs, Hh, Hh'. simpl orb. cbv iota.
  cbv beta iota zeta delta [bind try_catch ret throw log].
  pose proof (getRecentPopularTweets_outcome api w handle handle' None fx fx)
    as Hout.
  simpl or_empty.
  destruct (getRecentPopularTweets api w handle None fx) as [[tweets|e] fx1];
    destruct (getRecentPopularTweets api w handle' None fx) as [[tweets'|e'] fx2];
    simpl in Hout; try discriminate; simpl.
  - destruct (translateBetweenFrames w sourceText handle fx1) as [[r|e] fx3];
      simpl; discriminate.
  - reflexivity.
Qed.

Lemma post_translate_404_for_all_handles_witness :
  let api := mkArchive "https://archive.example" in
  let w : World (list Tweet) :=
    mkWorld (list Tweet) (Some "key") (Some "sk")
      (Some "https://archive.example")
      (fun _ => Throw (TypeError "fetch failed"))
      JSON_parse_table
      (fun _ => Throw (mkError "ZodError" "Expected object, received array"))
      Ok (fun _ => GuardFalsy) in
  fst (post_translate api w (mkTranslateBody (Some "hello") (Some "bob"))
         no_effects)
  = Ok (mkHttp 404 (MessageJson "Could not find Twitter profile for @bob")).
Proof.
  intros api w.
  apply (post_translate_404_for_all_handles api w "hello" "alice" "bob"
           no_effects
           (MessageJson "Could not find Twitter profile for @alice"));
    reflexivity.
Defined.

(** ** [GET /api/test/gemini] *)

(** X24. The Gemini probe tells whether the key is set, not whether the
    service works: with [GEMINI_API_KEY] set it answers 200 with
    [success: true] whatever the service does, the result being the fallback
    pair [Unable to analyze the Twitter profile at this time.] when the
    request fails or is refused; with the key unset it answers 500 with the
    configuration error's message. *)
Theorem get_test_gemini_reports_configuration {D : Type} (w : World D)
  (fx : Effects) :
  let outcome :=
    fetch_outcome w
      (insights_request (GEMINI_API_KEY w)
         (insights_prompt
            "This is a test tweet. Just testing the Gemini API integration.")) in
  (unset (GEMINI_API_KEY w) = false ->
   (exists result,
      fst (get_test_gemini w fx) = Ok (mkHttp 200 (ProbeSuccessJson result)))
   /\ (forall e,
         outcome = Throw e
         \/ (exists response, outcome = Ok response /\ ok response = false) ->
         fst (get_test_gemini w fx)
         = Ok (mkHttp 200 (ProbeSuccessJson fallback_unavailable))))
  /\ (unset (GEMINI_API_KEY w) = true ->
      fst (get_test_gemini w fx)
      = Ok (mkHttp 500
              (ProbeFailureJson "GEMINI_API_KEY environment variable is not set"))).
Proof.
  simpl. split; intros Hkey.
  - assert (Hres : exists r,
               fst (generateInsights w
                      "This is a test tweet. Just testing the Gemini API integration."
                      fx) = Ok r).
    { unfold generateInsights. rewrite Hkey.
      unfold bind at 1. unfold log at 1. unfold bind at 1. unfold log at 1.
      apply try_catch_resolves. intros e fx'. run_comp. simpl. eauto. }
    split.
    + destruct Hres as [r Hr]. exists r. unfold get_test_gemini.
      cbv beta iota zeta delta [bind try_catch ret].
      destruct (generateInsights w
                  "This is a test tweet. Just testing the Gemini API integration."
                  fx) as [[r'|e] fx']; simpl in *; congruence.
    + intros e Hcase.
      assert (Hf : fst (generateInsights w
                          "This is a test tweet. Just testing the Gemini API integration."
                          fx) = Ok fallback_unavailable).
      { apply (generateInsights_service_failure w _ fx Hkey e).
        destruct Hcase as [?|(response & ? & ?)]; [by left|].
        right. exists response. auto. }
      unfold get_test_gemini. cbv beta iota zeta delta [bind try_catch ret].
      destruct (generateInsights w
                  "This is a test tweet. Just testing the Gemini API integration."
                  fx) as [[r'|e'] fx']; simpl in *; congruence.
  - unfold get_test_gemini. cbv beta iota zeta delta [bind try_catch ret].
    rewrite (generateInsights_unconfigured w _ fx Hkey). reflexivity.
Qed.

Lemma get_test_gemini_reports_configuration_witness :
  let down : World GeminiResponse :=
    mkWorld GeminiResponse (Some "key") None None
      (fun _ => Throw (TypeError "fetch failed"))
      JSON_parse_table Ok
      (fun _ => Throw (mkError "ZodError" "Expected array, received object"))
      read_typed in
  fst (get_test_gemini down no_effects)
  = Ok (mkHttp 200 (ProbeSuccessJson fallback_unavailable))
  /\ fst (get_test_gemini (answering None "anything") no_effects)
     = Ok (mkHttp 500
             (ProbeFailureJson "GEMINI_API_KEY environment variable is not set")).
Proof.
  intros down. split.
  - refine (proj2 (proj1 (get_test_gemini_reports_configuration down no_effects)
                     eq_refl) (TypeError "fetch failed") _).
    left. reflexivity.
  - exact (proj2 (get_test_gemini_reports_configuration
                    (answering None "anything") no_effects) eq_refl).
Defined.
